(** * Boot-Split Distance script (workflow/scripts/tree_distances.py)

    A shallow embedding of the functions of [tree_distances.py] and the
    properties its specification states about them.

    Conventions.
    - Python [float] arithmetic is read over the rationals [Q]; the only
      partial operation, true division, raises [ZeroDivisionError] on a
      zero divisor exactly as Python does (it never yields NaN or an
      infinity).
    - Exceptions are the [Raise] branch of [result].
    - Objects that Python compares by identity ([Node], [Tree]) carry an
      identifier.
    - A support label is the integer that [int(label)] evaluates to.
    - What the script takes from outside (DendroPy's RF distance and
      Newick parser, reading a file) is a parameter that returns a value
      or raises. *)

From Stdlib Require Import ZArith QArith List String Ascii Bool Lia Lqa.
Import ListNotations.
Open Scope string_scope.
Open Scope list_scope.
Open Scope Q_scope.
Set Warnings "-register-all".

(** ** Exceptions *)

Inductive exn : Type :=
| NameError (name : string)
| ZeroDivisionError
| AssertionError (msg : string)
| IndexError
| KeyError
| TypeError
| ValueError
| OSError.

Inductive result (A : Type) : Type :=
| Return (a : A)
| Raise (e : exn).
Arguments Return {A} a.
Arguments Raise {A} e.

Definition bind {A B : Type} (c : result A) (k : A -> result B) : result B :=
  match c with
  | Return a => k a
  | Raise e => Raise e
  end.

Declare Scope py_scope.
Delimit Scope py_scope with py.
Notation "x <- c ;; k" := (bind c (fun x => k))
  (at level 61, c at next level, right associativity) : py_scope.
Notation "' pat <- c ;; k" := (bind c (fun x => match x with pat => k end))
  (at level 61, pat pattern, c at next level, right associativity) : py_scope.
Open Scope py_scope.

(** A [for] loop whose body may raise: the accumulator is threaded through
    the items in order and the first exception ends the loop. *)
Fixpoint for_each {A S : Type} (items : list A) (body : S -> A -> result S)
  (s : S) : result S :=
  match items with
  | [] => Return s
  | x :: rest => s' <- body s x ;; for_each rest body s'
  end.

(** ** Data model (what DendroPy hands to the script) *)

(** An entry of [tree.encode_bipartitions()]: its bitmask and the text
    [split_as_newick_string(tree.taxon_namespace)] renders for it. *)
Record Bipartition : Type := mkBipartition {
  bip_split_bitmask : Z;
  bip_newick : string
}.

(** What iterating a tree yields.  [label] is the bootstrap support read
    from the Newick text (absent on leaves and on unlabelled nodes),
    [taxon] the leaf name. *)
Record Node : Type := mkNode {
  node_id : positive;
  bipartition : Bipartition;
  label : option Z;
  taxon : option string
}.

(** [x.split_bitmask] *)
Definition split_bitmask (x : Node) : Z := bip_split_bitmask (bipartition x).

Record Tree : Type := mkTree {
  tree_id : positive;
  nodes : list Node;                      (* [for bip in tree], pre-order *)
  encode_bipartitions : list Bipartition  (* [tree.encode_bipartitions()] *)
}.

(** ** Python values, [==] and [is] *)

Inductive pyval : Type :=
| PInt (z : Z)
| PStr (s : string)
| PNode (n : Node)
| PTree (t : Tree)
| PList (l : list pyval)
| PObj (p : positive).     (* any other object: module, function, dict ... *)

(** [a == b].  Numbers and strings compare by value, lists element-wise;
    [Node] and [Tree] define [__eq__] as identity; values of unrelated
    classes are unequal. *)
Fixpoint py_eq (a b : pyval) : bool :=
  match a, b with
  | PInt x, PInt y => Z.eqb x y
  | PStr s, PStr t => String.eqb s t
  | PNode m, PNode n => Pos.eqb (node_id m) (node_id n)
  | PTree s, PTree t => Pos.eqb (tree_id s) (tree_id t)
  | PObj p, PObj q => Pos.eqb p q
  | PList l, PList m =>
      (fix all2 (l : list pyval) (m : list pyval) {struct l} : bool :=
         match l, m with
         | [], [] => true
         | x :: l', y :: m' => py_eq x y && all2 l' m'
         | _, _ => false
         end) l m
  | _, _ => false
  end.

(** [v is tree]: only the very same Tree object. *)
Definition py_is_tree (v : pyval) (tree : Tree) : bool :=
  match v with
  | PTree s => Pos.eqb (tree_id s) (tree_id tree)
  | _ => false
  end.

(** [v[i]] *)
Definition py_index (v : pyval) (i : nat) : result pyval :=
  match v with
  | PList l => match nth_error l i with
               | Some x => Return x
               | None => Raise IndexError
               end
  | PStr s => match String.get i s with
              | Some c => Return (PStr (String c EmptyString))
              | None => Raise IndexError
              end
  | _ => Raise TypeError
  end.

(** Iterating a value, as [set(v)] does. *)
Definition py_iter (v : pyval) : result (list pyval) :=
  match v with
  | PList l => Return l
  | PStr s => Return (map (fun c => PStr (String c EmptyString))
                          (list_ascii_of_string s))
  | PTree t => Return (map PNode (nodes t))
  | _ => Raise TypeError
  end.

(** ** Module scope *)

Definition globals : Type := list (string * pyval).

Definition builtin_names : list string :=
  [ "abs"; "all"; "any"; "bool"; "dict"; "enumerate"; "filter"; "float";
    "int"; "isinstance"; "iter"; "len"; "list"; "map"; "max"; "min";
    "next"; "object"; "open"; "print"; "range"; "reversed"; "set";
    "sorted"; "str"; "sum"; "tuple"; "type"; "zip";
    "None"; "True"; "False" ].

Fixpoint lookup (g : globals) (name : string) : option pyval :=
  match g with
  | [] => None
  | (k, v) :: rest => if String.eqb k name then Some v else lookup rest name
  end.

(** Reading a name that the function body never assigns: module globals,
    then builtins, else [NameError]. *)
Definition load_global (g : globals) (name : string) : result pyval :=
  match lookup g name with
  | Some v => Return v
  | None =>
      if existsb (String.eqb name) builtin_names
      then Return (PObj 1%positive)
      else Raise (NameError name)
  end.

(** Every name the module binds at top level: imports, functions, and the
    variables of the [__main__] block. *)
Definition module_names : list string :=
  [ "__name__"; "__doc__"; "__file__";
    "os"; "sys"; "argparse"; "logging"; "csv"; "dd"; "treecompare";
    "get_bipartitions"; "get_shared"; "get_diff"; "get_pruned_bips";
    "get_sum"; "get_mean_BSD"; "eBSD"; "dBSD"; "BSD"; "get_bsd";
    "make_distance_matrix";
    "parser"; "args"; "path_invalid"; "files"; "trees"; "filename";
    "name"; "tree_name"; "file"; "tree_temp"; "taxa"; "dd_trees"; "i";
    "tree"; "tree_dict" ].

(** A scope this module can be in: it binds module names only. *)
Definition module_scope (g : globals) : bool :=
  forallb (fun kv => existsb (String.eqb (fst kv)) module_names) g.

(** The scope when the driver calls [make_distance_matrix]: [files] and
    [trees] hold the labels and the Newick texts read from disk,
    [dd_trees] the parsed trees. *)
Definition script_globals (files trees : list string) (dd_trees : list Tree)
  : globals :=
  [ ("files", PList (map PStr files));
    ("trees", PList (map PStr trees));
    ("dd_trees", PList (map PTree dd_trees));
    ("tree_dict", PObj 2%positive);
    ("taxa", PObj 3%positive) ].

(** ** get_bipartitions *)

Definition get_bipartitions (tree : Tree) : list Node * list (list string) :=
  fold_left
    (fun '(bipartitions, bip_strings) bip =>
       let tree_bip := map bip_newick (encode_bipartitions tree) in
       (bipartitions ++ [bip], bip_strings ++ [tree_bip]))
    (nodes tree) ([], []).

(** ** get_shared *)

Definition py_set (v : pyval) : result (list pyval) :=
  l <- py_iter v ;;
  Return (fold_left
            (fun acc x => if existsb (py_eq x) acc then acc else acc ++ [x])
            l []).

Definition get_shared (g : globals) (firstTreeLeaves secondTreeLeaves : pyval)
  : result (list pyval) :=
  firstTreeNodes <- load_global g "firstTreeNodes" ;;
  s1 <- py_set firstTreeNodes ;;
  secondTreeNodes <- load_global g "secondTreeNodes" ;;
  s2 <- py_set secondTreeNodes ;;
  let in_common := filter (fun x => existsb (py_eq x) s2) s1 in
  if (List.length in_common <? 4)%nat
  then Return in_common
  else Raise (AssertionError
                "Trees have less than 4 species in common: cannot be compared!").

(** ** get_pruned_bips *)

(** [any(x.split_bitmask == b for x in xs)]: the left operand is an
    integer, the right one the list element itself. *)
Definition any_bitmask_eq (b : Node) (xs : list Node) : bool :=
  existsb (fun x => py_eq (PInt (split_bitmask x)) (PNode b)) xs.

Definition get_pruned_bips (bips1 : list Node) (bipStrings1 : list (list string))
  (bips2 : list Node) (bipStrings2 : list (list string))
  : list Node * list Node :=
  let first :=
    fold_left
      (fun '(bipsDiff, bipsEqual) b =>
         let found := any_bitmask_eq b bips2 in
         if found then (bipsDiff, bipsEqual ++ [b])
         else (bipsDiff ++ [b], bipsEqual))
      bips1 ([], []) in
  fold_left
    (fun '(bipsDiff, bipsEqual) b =>
       let found := any_bitmask_eq b bips1 in
       if found then
         if negb (any_bitmask_eq b bipsEqual)
         then (bipsDiff, bipsEqual ++ [b])
         else (bipsDiff, bipsEqual)
       else
         if negb (any_bitmask_eq b bipsDiff)
         then (bipsDiff ++ [b], bipsEqual)
         else (bipsDiff, bipsEqual))
    bips2 first.

(** ** get_sum, get_mean_BSD *)

(** [a / b] with a divisor that is not a literal. *)
Definition py_div (a b : Q) : result Q :=
  if Qeq_bool b 0 then Raise ZeroDivisionError else Return (a / b).

(** [sum(xs)]: starts from 0 and adds from the left. *)
Definition py_sum (xs : list Q) : Q := fold_left Qplus xs 0.

Definition get_sum (bipartitions : list Node) : Q * list Z :=
  let nums :=
    fold_left
      (fun nums b =>
         match label b with
         | Some num => nums ++ [num]
         | None => nums
         end)
      bipartitions [] in
  let BS_vals := map (fun v : Z => inject_Z v / 100) nums in
  let sum_BS := py_sum BS_vals in
  (sum_BS, nums).

Definition get_mean_BSD (sumBS : Q) (listBS : list Z) : result Q :=
  if (List.length listBS =? 0)%nat
  then Return 0
  else py_div sumBS (inject_Z (Z.of_nat (List.length listBS))).

(** ** eBSD, dBSD, BSD *)

Definition eBSD (sum_total_BS sum_mutual_split_BS mean_BS_mutual : Q)
  : result Q :=
  q <- py_div sum_mutual_split_BS sum_total_BS ;;
  Return (1 - q * mean_BS_mutual).

Definition dBSD (sum_total_BS sum_diff_split_BS mean_BS_diff : Q)
  : result Q :=
  q <- py_div sum_diff_split_BS sum_total_BS ;;
  Return (q * mean_BS_diff).

Definition BSD (sum_total_BS sum_mutual_split_BS sum_diff_split_BS
                mean_BS_mutual mean_BS_diff : Q) : result (Q * Q * Q) :=
  equalBSD <- eBSD sum_total_BS sum_mutual_split_BS mean_BS_mutual ;;
  diffBSD <- dBSD sum_total_BS sum_diff_split_BS mean_BS_diff ;;
  let bootSplitDist := (equalBSD + diffBSD) / 2 in
  Return (bootSplitDist, equalBSD, diffBSD).

(** ** get_bsd *)

(** The tuple [get_bsd] returns, in the order of its [return] statement. *)
Record bsd_tuple : Type := mkBsd {
  t_BSD_val : Q;
  t_eBSD : Q;
  t_dBSD : Q;
  t_sum_total_BS : Q;
  t_sum_mutual_BS : Q;
  t_sum_diff_BS : Q;
  t_mean_BS_mutual : Q;
  t_mean_BS_diff : Q
}.

Definition get_bsd (tree_1 tree_2 : Tree) : result bsd_tuple :=
  let '(bips_1, names_1) := get_bipartitions tree_1 in
  let '(bips_2, names_2) := get_bipartitions tree_2 in
  let '(bipsDiff, bipsEqual) :=
    get_pruned_bips bips_1 names_1 bips_2 names_2 in
  let '(sum_1, toDiscard1) := get_sum bips_1 in
  let '(sum_2, toDiscard2) := get_sum bips_2 in
  let sum_total_BS := sum_1 + sum_2 in
  let '(sum_mutual_BS, list_mutual_BS) := get_sum bipsEqual in
  let '(sum_diff_BS, list_diff_BS) := get_sum bipsDiff in
  mean_BS_mutual <- get_mean_BSD sum_mutual_BS list_mutual_BS ;;
  mean_BS_diff <- get_mean_BSD sum_diff_BS list_diff_BS ;;
  '(BSD_val, eBSD, dBSD) <-
     BSD sum_total_BS sum_mutual_BS sum_diff_BS mean_BS_mutual mean_BS_diff ;;
  Return (mkBsd BSD_val eBSD dBSD sum_total_BS sum_mutual_BS sum_diff_BS
                mean_BS_mutual mean_BS_diff).

(** ** make_distance_matrix *)

Inductive cell : Type :=
| CStr (s : string)
| CNum (q : Q).

(** [tree_dict]: insertion-ordered, keyed by the Tree object. *)
Definition tree_dict_t : Type := list (Tree * string).

Fixpoint dict_get (d : tree_dict_t) (key : Tree) : result string :=
  match d with
  | [] => Raise KeyError
  | (k, v) :: rest =>
      if Pos.eqb (tree_id k) (tree_id key) then Return v else dict_get rest key
  end.

Section MatrixBuilder.

(** [treecompare.weighted_robinson_foulds_distance], DendroPy's own: the
    distance, or the exception it raises (a [ValueError] when an edge has
    no length). *)
Variable weighted_robinson_foulds_distance : Tree -> Tree -> result Q.

(** The file written: its name and its rows. *)
Definition csv_file : Type := (string * list (list cell))%type.

(** The inner [for i in range(len(tree_list))] of one row. *)
Definition row_distances (g : globals) (tree_list : list Tree)
  (dist_type : string) (tree_ref : Tree) (distances : list cell)
  : result (list cell) :=
  for_each (seq 0 (List.length tree_list))
    (fun distances i =>
       trees <- load_global g "trees" ;;
       trees_i <- py_index trees i ;;
       if negb (py_is_tree trees_i tree_ref) then
         match nth_error tree_list i with
         | None => Raise IndexError
         | Some tree_i =>
             dist_val <-
               (if String.eqb dist_type "rf"
                then weighted_robinson_foulds_distance tree_ref tree_i
                else r <- get_bsd tree_ref tree_i ;; Return (t_BSD_val r)) ;;
             Return (distances ++ [CNum dist_val])
         end
       else Return distances)
    distances.

Definition make_distance_matrix (g : globals) (tree_dict : tree_dict_t)
  (tree_list : list Tree) (dist_type : string) : result csv_file :=
  let file_name :=
    if String.eqb dist_type "rf" then "rf_matrix.csv" else "bsd_matrix.csv" in
  header <-
    for_each (map fst tree_dict)
      (fun header tree => v <- dict_get tree_dict tree ;; Return (header ++ [CStr v]))
      [CStr ","] ;;
  rows <-
    for_each tree_list
      (fun rows tree_ref =>
         v <- dict_get tree_dict tree_ref ;;
         distances <- row_distances g tree_list dist_type tree_ref [CStr v] ;;
         Return (rows ++ [distances]))
      [header] ;;
  Return (file_name, rows).

End MatrixBuilder.

(** ** get_diff *)

Section SetsOfLeaves.

(** The leaves: any hashable values, with their [==]. *)
Variable A : Type.
Variable eqb : A -> A -> bool.

(** [set(xs)], listed in order of first occurrence.  (Python leaves the
    iteration order of a set open; the properties below do not depend on
    it.) *)
Definition set_of (xs : list A) : list A :=
  fold_left (fun acc x => if existsb (eqb x) acc then acc else acc ++ [x])
            xs [].

(** [list(set(firstTreeLeaves) ^ set(secondTreeLeaves))] *)
Definition get_diff (firstTreeLeaves secondTreeLeaves : list A) : list A :=
  let s1 := set_of firstTreeLeaves in
  let s2 := set_of secondTreeLeaves in
  filter (fun x => negb (existsb (eqb x) s2)) s1
  ++ filter (fun x => negb (existsb (eqb x) s1)) s2.

End SetsOfLeaves.

Arguments set_of {A} eqb xs.
Arguments get_diff {A} eqb firstTreeLeaves secondTreeLeaves.

(** ** The driver ([__main__]) *)

(** [s.endswith(suffix)] *)
Definition endswith (s suffix : string) : bool :=
  let n := String.length s in
  let m := String.length suffix in
  (m <=? n)%nat && String.eqb (substring (n - m) m s) suffix.

(** [s.split(sep)] for a one-character separator. *)
Fixpoint py_split (sep : ascii) (s : string) : list string :=
  match s with
  | EmptyString => [EmptyString]
  | String c rest =>
      if Ascii.eqb c sep then EmptyString :: py_split sep rest
      else match py_split sep rest with
           | piece :: pieces => String c piece :: pieces
           | [] => [String c EmptyString]
           end
  end.

(** [s.replace(c, '')] for a one-character [c]. *)
Fixpoint py_remove (c : ascii) (s : string) : string :=
  match s with
  | EmptyString => EmptyString
  | String d rest =>
      if Ascii.eqb d c then py_remove c rest else String d (py_remove c rest)
  end.

Definition newline : ascii := "010"%char.
Definition dot : ascii := "."%char.

(** The loop over [os.listdir(os.getcwd())] when every file it opens can
    be read: [listing] pairs each file name with the text [file.read()]
    gives for it. *)
Definition discover (listing : list (string * string))
  : result (list string * list string) :=
  for_each listing
    (fun '(files, trees) '(filename, content) =>
       if endswith filename ".treefile" then
         let name := py_split dot filename in
         match nth_error name 0 with
         | None => Raise IndexError
         | Some name_0 =>
             let tree_name := ("tree_" ++ name_0)%string in
             let tree_temp := py_remove newline content in
             Return (files ++ [tree_name], trees ++ [tree_temp])
         end
       else Return (files, trees))
    ([], []).

(** The same loop with the file system in it: [names] is what
    [os.listdir] returns, and [read filename] is the text that
    [open(filename, 'r')] and [file.read()] give, or the exception they
    raise. *)
Definition discover_files (read : string -> result string)
  (names : list string) : result (list string * list string) :=
  for_each names
    (fun '(files, trees) filename =>
       if endswith filename ".treefile" then
         let name := py_split dot filename in
         match nth_error name 0 with
         | None => Raise IndexError
         | Some name_0 =>
             let tree_name := ("tree_" ++ name_0)%string in
             content <- read filename ;;
             let tree_temp := py_remove newline content in
             Return (files ++ [tree_name], trees ++ [tree_temp])
         end
       else Return (files, trees))
    ([], []).

(** [d[k] = v] on the insertion-ordered dictionary. *)
Fixpoint dict_set (d : tree_dict_t) (k : Tree) (v : string) : tree_dict_t :=
  match d with
  | [] => [(k, v)]
  | (k', v') :: rest =>
      if Pos.eqb (tree_id k') (tree_id k) then (k', v) :: rest
      else (k', v') :: dict_set rest k v
  end.

(** [dict(zip(keys, values))] *)
Definition dict_zip (keys : list Tree) (values : list string) : tree_dict_t :=
  fold_left (fun d kv => dict_set d (fst kv) (snd kv)) (combine keys values) [].

Section Driver.

Variable weighted_robinson_foulds_distance : Tree -> Tree -> result Q.

(** [dd.Tree.get(data=text, schema="newick", taxon_namespace=taxa)]
    followed by [tree.encode_bipartitions()]: the items and the
    bipartitions of the parsed tree, or DendroPy's exception. *)
Variable Tree_get : string -> result (list Node * list Bipartition).

(** The loop that builds [dd_trees]; every parse creates a new Tree
    object, numbered here by its position. *)
Definition parse_trees (trees : list string) : result (list Tree) :=
  for_each (seq 0 (List.length trees))
    (fun dd_trees i =>
       match nth_error trees i with
       | None => Raise IndexError
       | Some text =>
           parsed <- Tree_get text ;;
           Return (dd_trees
                   ++ [mkTree (Pos.of_succ_nat i) (fst parsed) (snd parsed)])
       end)
    [].


End Driver.

(** ** Worked inputs *)

Module Samples.

Definition bip (mask : Z) (text : string) : Bipartition :=
  mkBipartition mask text.

Definition inner (i : positive) (mask : Z) (text : string) (support : Z)
  : Node := mkNode i (bip mask text) (Some support) None.

Definition leaf (i : positive) (mask : Z) (name : string) : Node :=
  mkNode i (bip mask name) None (Some name).

Definition root (i : positive) (mask : Z) (text : string) : Node :=
  mkNode i (bip mask text) None None.

(** The rooted tree [(((T1,T2)90,T3)80,(T4,T5)70);] *)
Definition nodesA (base : positive) : list Node :=
  [ root (base + 1) 31 "((T1,T2,T3),(T4,T5))";
    inner (base + 2) 7 "((T1,T2,T3),(T4,T5))" 80;
    inner (base + 3) 3 "((T1,T2),(T3,T4,T5))" 90;
    leaf (base + 4) 1 "T1"; leaf (base + 5) 2 "T2"; leaf (base + 6) 4 "T3";
    inner (base + 7) 24 "((T4,T5),(T1,T2,T3))" 70;
    leaf (base + 8) 8 "T4"; leaf (base + 9) 16 "T5" ].

Definition treeA : Tree :=
  mkTree 1 (nodesA 100) (map bipartition (nodesA 100)).

(** A second tree object parsed from the same text. *)
Definition treeA' : Tree :=
  mkTree 2 (nodesA 200) (map bipartition (nodesA 200)).

(** The rooted trees [((A,B)90,C);] and [((A,C)85,B);]: three taxa in
    common. *)
Definition tree3 : Tree :=
  let ns := [ root 301 7 "(A,B,C)"; inner 302 3 "((A,B),C)" 90;
              leaf 303 1 "A"; leaf 304 2 "B"; leaf 305 4 "C" ] in
  mkTree 3 ns (map bipartition ns).

Definition tree3' : Tree :=
  let ns := [ root 401 7 "(A,B,C)"; inner 402 5 "((A,C),B)" 85;
              leaf 403 1 "A"; leaf 404 4 "C"; leaf 405 2 "B" ] in
  mkTree 4 ns (map bipartition ns).

(** A tree none of whose nodes has a label: [(A,B,C,D);]. *)
Definition star : Tree :=
  let ns := [ root 501 15 "(A,B,C,D)"; leaf 502 1 "A"; leaf 503 2 "B";
              leaf 504 4 "C"; leaf 505 8 "D" ] in
  mkTree 5 ns (map bipartition ns).

(** Two items, from two trees, carrying the same split [{T1,T2}]. *)
Definition splitL : Node := inner 602 3 "((T1,T2),(T3,T4,T5))" 90.
Definition splitR : Node := inner 702 3 "((T1,T2),(T3,T4,T5))" 60.

End Samples.

(** * Notions used to state the properties *)

(** The reading of the extractor's contract: entry [i] of the second
    component is the one Newick text of item [i]. *)
Definition one_newick_per_bipartition (tree : Tree) : Prop :=
  let '(bipartitions, bip_strings) := get_bipartitions tree in
  Forall2 (fun b entry => entry = [bip_newick (bipartition b)])
          bipartitions bip_strings.

(** The labels that are present, in order. *)
Definition present_labels (bs : list Node) : list Z :=
  flat_map (fun b => match label b with Some num => [num] | None => [] end) bs.

(** The aggregator in the specification's words: the labels present are
    turned into fractions and added up; the mean divides by how many
    there are, and is 0 when there are none. *)
Fixpoint support_sum (bs : list Node) : Q :=
  match bs with
  | [] => 0
  | b :: rest =>
      match label b with
      | Some l => inject_Z l / 100 + support_sum rest
      | None => support_sum rest
      end
  end.

(** How many items carry a label. *)
Definition support_count (bs : list Node) : nat :=
  List.length
    (filter (fun b => match label b with Some _ => true | None => false end) bs).

Definition support_mean (bs : list Node) : Q :=
  if (support_count bs =? 0)%nat then 0
  else support_sum bs / inject_Z (Z.of_nat (support_count bs)).

(** The mean [get_mean_BSD] returns for the aggregate of [bs]. *)
Definition mean_of (bs : list Node) : Q :=
  let '(s, nums) := get_sum bs in
  if (List.length nums =? 0)%nat then 0
  else s / inject_Z (Z.of_nat (List.length nums)).

(** Same splits with the same supports, item by item. *)
Definition identical_trees (t1 t2 : Tree) : Prop :=
  map (fun n => (split_bitmask n, label n)) (nodes t1)
  = map (fun n => (split_bitmask n, label n)) (nodes t2).

(** Every support present is a percentage. *)
Definition supports_in_range (bs : list Node) : Prop :=
  Forall (fun n => match label n with
                   | Some l => (0 <= l <= 100)%Z
                   | None => True
                   end) bs.

(** The reading of the claim at one pair: a distance is returned and it
    is 0. *)
Definition bsd_is_zero (t1 t2 : Tree) : Prop :=
  exists r : bsd_tuple, get_bsd t1 t2 = Return r /\ t_BSD_val r == 0.

(** The taxa at the leaves of a tree, and those two trees have in common. *)
Definition leaf_taxa (t : Tree) : list string :=
  flat_map (fun n => match taxon n with Some x => [x] | None => [] end)
           (nodes t).

Definition taxa_in_common (t1 t2 : Tree) : list string :=
  filter (fun x => existsb (String.eqb x) (leaf_taxa t2)) (leaf_taxa t1).

(** Whether an item carries a support label. *)
Definition has_label (b : Node) : bool :=
  match label b with Some _ => true | None => false end.

(** The total support [get_bsd] divides by. *)
Definition sum_total (tree_1 tree_2 : Tree) : Q :=
  fst (get_sum (nodes tree_1)) + fst (get_sum (nodes tree_2)).

(** Whether character [c] occurs in [s]. *)
Fixpoint occurs (c : ascii) (s : string) : bool :=
  match s with
  | EmptyString => false
  | String d rest => Ascii.eqb d c || occurs c rest
  end.

(** The part of [s] before the first [sep] (all of [s] if there is
    none). *)
Fixpoint before (sep : ascii) (s : string) : string :=
  match s with
  | EmptyString => EmptyString
  | String c rest => if Ascii.eqb c sep then EmptyString
                     else String c (before sep rest)
  end.

(** The entries of a listing that the driver takes up. *)
Definition treefiles (listing : list (string * string))
  : list (string * string) :=
  filter (fun entry => endswith (fst entry) ".treefile") listing.

(** Applying a function that may raise to every item, in order; the first
    exception is the result. *)
Fixpoint mapM {A B : Type} (f : A -> result B) (xs : list A)
  : result (list B) :=
  match xs with
  | [] => Return []
  | x :: rest => y <- f x ;; ys <- mapM f rest ;; Return (y :: ys)
  end.

(** The distance [make_distance_matrix] puts in the cell of [tree_ref] and
    [tree_i]. *)
Definition pair_distance (wrf : Tree -> Tree -> result Q) (dist_type : string)
  (tree_ref tree_i : Tree) : result Q :=
  if String.eqb dist_type "rf" then wrf tree_ref tree_i
  else r <- get_bsd tree_ref tree_i ;; Return (t_BSD_val r).

(** The data row of [tree_ref]: its label, then its distance to every
    tree of the list, itself included. *)
Definition matrix_row (wrf : Tree -> Tree -> result Q)
  (tree_dict : tree_dict_t)
  (tree_list : list Tree) (dist_type : string) (tree_ref : Tree)
  : result (list cell) :=
  v <- dict_get tree_dict tree_ref ;;
  cells <- mapM (fun tree_i =>
                   d <- pair_distance wrf dist_type tree_ref tree_i ;;
                   Return (CNum d)) tree_list ;;
  Return (CStr v :: cells).

(** The module scope binds [trees] to at least as many Newick texts as
    there are trees to compare, as it does when the script runs. *)
Definition trees_bound (g : globals) (tree_list : list Tree) : Prop :=
  exists texts : list string,
    lookup g "trees" = Some (PList (map PStr texts))
    /\ (List.length tree_list <= List.length texts)%nat.

(** The keys of a dictionary are distinct objects. *)
Definition distinct_keys (d : tree_dict_t) : Prop :=
  NoDup (map (fun kv => tree_id (fst kv)) d).



(** Whether some item carries a support label above 0. *)
Definition has_positive_label (bs : list Node) : bool :=
  existsb (fun n => match label n with
                    | Some l => (0 <? l)%Z
                    | None => false
                    end) bs.

(** Further inputs. *)
Module MoreSamples.

(** The rooted tree [((B,C)90,A);]: the support of [Samples.tree3] on
    another split. *)
Definition tree3_other : Tree :=
  let ns := [ Samples.root 801 7 "(A,B,C)";
              Samples.inner 802 6 "((B,C),A)" 90;
              Samples.leaf 803 2 "B"; Samples.leaf 804 4 "C";
              Samples.leaf 805 1 "A" ] in
  mkTree 8 ns (map bipartition ns).

(** Two copies of [treeA] as the driver holds them: the list, the
    dictionary of labels, and the module scope. *)
Definition list2 : list Tree := [Samples.treeA; Samples.treeA'].

Definition dict2 : tree_dict_t :=
  [(Samples.treeA, "tree_a"); (Samples.treeA', "tree_b")].

(** The text of [treeA], every edge with a length. *)
Definition textA : string :=
  "[&R] (((T1:1,T2:1)90:1,T3:2)80:1,(T4:1,T5:1)70:2);".

Definition scope2 : globals :=
  script_globals ["tree_a"; "tree_b"] [textA; textA] list2.

End MoreSamples.

(** * Properties *)

(** ** Loops that only append *)

Section Loops.

Context {A B : Type}.

Lemma fold_left_snoc2 (f : A -> B) (xs : list A) (l : list A) (r : list B) :
  fold_left (fun '(l, r) x => (l ++ [x], r ++ [f x])) xs (l, r)
  = (l ++ xs, r ++ map f xs).
Proof.
  revert l r; induction xs as [|x xs IH]; intros l r; simpl.
  - now rewrite !app_nil_r.
  - rewrite IH, <- !app_assoc. reflexivity.
Qed.

End Loops.

(** ** get_bipartitions *)

Lemma get_bipartitions_eq (tree : Tree) :
  get_bipartitions tree
  = (nodes tree,
     map (fun _ => map bip_newick (encode_bipartitions tree)) (nodes tree)).
Proof.
  unfold get_bipartitions.
  exact (fold_left_snoc2
           (fun _ : Node => map bip_newick (encode_bipartitions tree))
           (nodes tree) [] []).
Qed.

(** C9, on the five-taxon tree: the entry kept for each of the nine items
    is the list of the Newick strings of all nine bipartitions of the
    tree, so no entry is the one string of its item. *)
Theorem get_bipartitions_treeA_entries :
  snd (get_bipartitions Samples.treeA)
  = repeat (map bip_newick (encode_bipartitions Samples.treeA)) 9
  /\ List.length (map bip_newick (encode_bipartitions Samples.treeA)) = 9%nat
  /\ ~ one_newick_per_bipartition Samples.treeA.
Proof.
  split; [reflexivity|]. split; [reflexivity|].
  unfold one_newick_per_bipartition.
  rewrite get_bipartitions_eq.
  intro H. inversion H as [|b e bs es Hhd _]; subst.
  discriminate Hhd.
Qed.

(** ** get_pruned_bips *)

(** An integer bitmask never equals a list item. *)
Lemma any_bitmask_eq_false (b : Node) (xs : list Node) :
  any_bitmask_eq b xs = false.
Proof.
  unfold any_bitmask_eq.
  induction xs as [|x xs IH]; simpl; [reflexivity | exact IH].
Qed.

Lemma fold_left_all_diff (other : list Node) (xs : list Node)
  (bipsDiff : list Node) :
  fold_left
    (fun '(bipsDiff, bipsEqual) b =>
       let found := any_bitmask_eq b other in
       if found then (bipsDiff, bipsEqual ++ [b])
       else (bipsDiff ++ [b], bipsEqual))
    xs (bipsDiff, []) = (bipsDiff ++ xs, []).
Proof.
  revert bipsDiff; induction xs as [|x xs IH]; intros bipsDiff; simpl.
  - now rewrite app_nil_r.
  - rewrite any_bitmask_eq_false, IH, <- app_assoc. reflexivity.
Qed.

Lemma fold_left_all_diff_dedup (other : list Node) (xs : list Node)
  (bipsDiff : list Node) :
  fold_left
    (fun '(bipsDiff, bipsEqual) b =>
       let found := any_bitmask_eq b other in
       if found then
         if negb (any_bitmask_eq b bipsEqual)
         then (bipsDiff, bipsEqual ++ [b])
         else (bipsDiff, bipsEqual)
       else
         if negb (any_bitmask_eq b bipsDiff)
         then (bipsDiff ++ [b], bipsEqual)
         else (bipsDiff, bipsEqual))
    xs (bipsDiff, []) = (bipsDiff ++ xs, []).
Proof.
  revert bipsDiff; induction xs as [|x xs IH]; intros bipsDiff; simpl.
  - now rewrite app_nil_r.
  - rewrite !any_bitmask_eq_false; simpl.
    rewrite IH, <- app_assoc. reflexivity.
Qed.

(** What the matcher computes: nothing is ever found, so every item of
    both lists lands in [bipsDiff]. *)
Lemma get_pruned_bips_eq (bips1 bips2 : list Node)
  (bipStrings1 bipStrings2 : list (list string)) :
  get_pruned_bips bips1 bipStrings1 bips2 bipStrings2 = (bips1 ++ bips2, []).
Proof.
  unfold get_pruned_bips.
  pose proof (fold_left_all_diff bips2 bips1 []) as Hfirst.
  pose proof (fold_left_all_diff_dedup bips1 bips2 bips1) as Hsecond.
  cbv zeta in *. simpl app in Hfirst.
  rewrite Hfirst. exact Hsecond.
Qed.

(** C1, at two one-item lists that carry the same bitmask 3: the split is
    reported as differing (twice) and [shared] is empty. *)
Theorem get_pruned_bips_same_split :
  split_bitmask Samples.splitL = split_bitmask Samples.splitR
  /\ get_pruned_bips [Samples.splitL] [[]] [Samples.splitR] [[]]
     = ([Samples.splitL; Samples.splitR], []).
Proof. split; reflexivity. Qed.

(** C8: swapping the two arguments leaves the set of shared bitmasks
    unchanged. *)
Theorem get_pruned_bips_shared_symmetric (A B : list Node)
  (sA sB : list (list string)) (mask : Z) :
  In mask (map split_bitmask (snd (get_pruned_bips A sA B sB)))
  <-> In mask (map split_bitmask (snd (get_pruned_bips B sB A sA))).
Proof.
  rewrite !get_pruned_bips_eq. simpl. tauto.
Qed.

(** ** get_sum and get_mean_BSD *)

Lemma collect_labels (bs : list Node) (acc : list Z) :
  fold_left
    (fun nums b => match label b with
                   | Some num => nums ++ [num]
                   | None => nums
                   end) bs acc
  = acc ++ present_labels bs.
Proof.
  revert acc; induction bs as [|b bs IH]; intros acc; simpl.
  - now rewrite app_nil_r.
  - rewrite IH. destruct (label b); simpl.
    + now rewrite <- app_assoc.
    + reflexivity.
Qed.

Lemma get_sum_eq (bs : list Node) :
  get_sum bs
  = (py_sum (map (fun v : Z => inject_Z v / 100) (present_labels bs)),
     present_labels bs).
Proof.
  unfold get_sum. cbv zeta.
  pose proof (collect_labels bs []) as H. simpl app in H.
  rewrite H. reflexivity.
Qed.

Lemma present_labels_app (xs ys : list Node) :
  present_labels (xs ++ ys) = present_labels xs ++ present_labels ys.
Proof. unfold present_labels. apply flat_map_app. Qed.

Lemma fold_left_Qplus (xs : list Q) (a : Q) :
  fold_left Qplus xs a == a + py_sum xs.
Proof.
  unfold py_sum.
  revert a; induction xs as [|x xs IH]; intros a; simpl.
  - ring.
  - rewrite (IH (a + x)), (IH (0 + x)). ring.
Qed.

Lemma py_sum_cons (x : Q) (xs : list Q) : py_sum (x :: xs) == x + py_sum xs.
Proof.
  unfold py_sum at 1; simpl. rewrite fold_left_Qplus. ring.
Qed.

Lemma py_sum_app (xs ys : list Q) : py_sum (xs ++ ys) == py_sum xs + py_sum ys.
Proof.
  induction xs as [|x xs IH]; simpl.
  - unfold py_sum at 2; simpl. ring.
  - rewrite !py_sum_cons, IH. ring.
Qed.

Lemma get_sum_app (xs ys : list Node) :
  fst (get_sum (xs ++ ys)) == fst (get_sum xs) + fst (get_sum ys)
  /\ snd (get_sum (xs ++ ys)) = snd (get_sum xs) ++ snd (get_sum ys).
Proof.
  rewrite !get_sum_eq; simpl.
  rewrite present_labels_app, map_app. split; [apply py_sum_app | reflexivity].
Qed.

Lemma get_sum_support_sum (bs : list Node) : fst (get_sum bs) == support_sum bs.
Proof.
  rewrite get_sum_eq; simpl.
  induction bs as [|b bs IH]; simpl.
  - reflexivity.
  - destruct (label b); simpl.
    + rewrite py_sum_cons, IH. reflexivity.
    + exact IH.
Qed.

Lemma get_sum_support_count (bs : list Node) :
  List.length (snd (get_sum bs)) = support_count bs.
Proof.
  rewrite get_sum_eq; simpl. unfold support_count.
  induction bs as [|b bs IH]; simpl.
  - reflexivity.
  - destruct (label b); simpl; now rewrite IH.
Qed.

Lemma Qeq_bool_of_nat (n : nat) :
  Qeq_bool (inject_Z (Z.of_nat n)) 0 = (n =? 0)%nat.
Proof.
  destruct n as [|n]; [reflexivity|].
  apply Bool.not_true_is_false. intro H.
  apply Qeq_bool_eq in H. unfold Qeq in H; simpl in H. lia.
Qed.

Lemma get_mean_BSD_eq (sumBS : Q) (listBS : list Z) :
  get_mean_BSD sumBS listBS
  = Return (if (List.length listBS =? 0)%nat then 0
            else sumBS / inject_Z (Z.of_nat (List.length listBS))).
Proof.
  unfold get_mean_BSD, py_div. rewrite Qeq_bool_of_nat.
  destruct (List.length listBS =? 0)%nat; reflexivity.
Qed.

(** C6: the sum is the sum of [label / 100] over the labelled items only,
    the count is the number of labelled items, and the mean is an ordinary
    value: the sum over the count, 0 when nothing is labelled. *)
Theorem support_aggregator (bs : list Node) :
  fst (get_sum bs) == support_sum bs
  /\ List.length (snd (get_sum bs)) = support_count bs
  /\ exists mean : Q,
       get_mean_BSD (fst (get_sum bs)) (snd (get_sum bs)) = Return mean
       /\ mean == support_mean bs
       /\ mean = (if (support_count bs =? 0)%nat then 0 else mean).
Proof.
  split; [apply get_sum_support_sum|].
  split; [apply get_sum_support_count|].
  rewrite get_mean_BSD_eq, get_sum_support_count.
  eexists; split; [reflexivity|].
  unfold support_mean.
  destruct (support_count bs =? 0)%nat; split; try reflexivity.
  rewrite get_sum_support_sum. reflexivity.
Qed.

(** ** BSD and get_bsd *)

Lemma py_div_nonzero (a b : Q) : ~ b == 0 -> py_div a b = Return (a / b).
Proof.
  intro Hb. unfold py_div.
  destruct (Qeq_bool b 0) eqn:E; [|reflexivity].
  apply Qeq_bool_eq in E. contradiction.
Qed.

Lemma py_div_zero (a b : Q) : b == 0 -> py_div a b = Raise ZeroDivisionError.
Proof.
  intro Hb. unfold py_div. now rewrite (Qeq_eq_bool _ _ Hb).
Qed.

Lemma BSD_nonzero (st sm sd mm md : Q) :
  ~ st == 0 ->
  BSD st sm sd mm md
  = Return (((1 - sm / st * mm) + sd / st * md) / 2,
            1 - sm / st * mm,
            sd / st * md).
Proof.
  intro H. unfold BSD, eBSD, dBSD.
  rewrite !(py_div_nonzero _ _ H). reflexivity.
Qed.

Lemma BSD_zero (st sm sd mm md : Q) :
  st == 0 -> BSD st sm sd mm md = Raise ZeroDivisionError.
Proof.
  intro H. unfold BSD, eBSD. now rewrite (py_div_zero _ _ H).
Qed.

(** [get_bsd] with its local bindings resolved. *)
Lemma get_bsd_eq (tree_1 tree_2 : Tree) :
  get_bsd tree_1 tree_2
  = (let pruned :=
       get_pruned_bips (nodes tree_1) (snd (get_bipartitions tree_1))
                       (nodes tree_2) (snd (get_bipartitions tree_2)) in
     let st := fst (get_sum (nodes tree_1)) + fst (get_sum (nodes tree_2)) in
     let sm := fst (get_sum (snd pruned)) in
     let sd := fst (get_sum (fst pruned)) in
     '(v, e, d) <- BSD st sm sd (mean_of (snd pruned)) (mean_of (fst pruned)) ;;
     Return (mkBsd v e d st sm sd (mean_of (snd pruned)) (mean_of (fst pruned)))).
Proof.
  unfold get_bsd, mean_of. rewrite !get_bipartitions_eq. cbn [snd fst].
  destruct (get_pruned_bips _ _ _ _) as [bipsDiff bipsEqual]. cbn [snd fst].
  destruct (get_sum (nodes tree_1)) as [sum_1 l1].
  destruct (get_sum (nodes tree_2)) as [sum_2 l2].
  destruct (get_sum bipsEqual) as [sum_m lm].
  destruct (get_sum bipsDiff) as [sum_d ld].
  rewrite !get_mean_BSD_eq. reflexivity.
Qed.

(** C2: with a non-zero total, [BSD] returns the three formulas for any
    aggregated inputs, and [get_bsd] returns them over
    [sum_total = sum_1 + sum_2]. *)
Theorem BSD_formulas (tree_1 tree_2 : Tree) (sm sd mm md : Q) :
  let sum_1 := fst (get_sum (fst (get_bipartitions tree_1))) in
  let sum_2 := fst (get_sum (fst (get_bipartitions tree_2))) in
  let sum_total := sum_1 + sum_2 in
  ~ sum_total == 0 ->
  BSD sum_total sm sd mm md
  = Return (((1 - sm / sum_total * mm) + sd / sum_total * md) / 2,
            1 - sm / sum_total * mm,
            sd / sum_total * md)
  /\ exists r : bsd_tuple,
       get_bsd tree_1 tree_2 = Return r
       /\ t_sum_total_BS r = sum_total
       /\ t_eBSD r
          = 1 - t_sum_mutual_BS r / t_sum_total_BS r * t_mean_BS_mutual r
       /\ t_dBSD r = t_sum_diff_BS r / t_sum_total_BS r * t_mean_BS_diff r
       /\ t_BSD_val r = (t_eBSD r + t_dBSD r) / 2.
Proof.
  intros sum_1 sum_2 sum_total H. subst sum_total sum_1 sum_2.
  rewrite !get_bipartitions_eq in *. cbn [fst] in *.
  split; [apply BSD_nonzero; exact H|].
  rewrite get_bsd_eq. cbv zeta.
  rewrite (BSD_nonzero _ _ _ _ _ H). cbn [bind].
  eexists; split; [reflexivity|]. cbn. repeat split.
Qed.

Lemma BSD_formulas_witness :
  exists r : bsd_tuple,
    get_bsd Samples.treeA Samples.treeA' = Return r
    /\ t_sum_total_BS r
       = fst (get_sum (fst (get_bipartitions Samples.treeA)))
         + fst (get_sum (fst (get_bipartitions Samples.treeA')))
    /\ t_eBSD r
       = 1 - t_sum_mutual_BS r / t_sum_total_BS r * t_mean_BS_mutual r
    /\ t_dBSD r = t_sum_diff_BS r / t_sum_total_BS r * t_mean_BS_diff r
    /\ t_BSD_val r = (t_eBSD r + t_dBSD r) / 2.
Proof.
  refine (proj2 (BSD_formulas Samples.treeA Samples.treeA' 0 0 0 0 _)).
  vm_compute. discriminate.
Defined.

Lemma present_labels_none (bs : list Node) :
  Forall (fun n => label n = None) bs -> present_labels bs = [].
Proof.
  induction 1 as [|b bs Hb _ IH]; simpl; [reflexivity|].
  now rewrite Hb, IH.
Qed.

(** C5: when no item of either tree has a label the total is 0 and the
    first division raises [ZeroDivisionError] (the failure the
    specification calls DegenerateInput); no number is returned. *)
Theorem get_bsd_no_support (tree_1 tree_2 : Tree) :
  Forall (fun n => label n = None) (nodes tree_1) ->
  Forall (fun n => label n = None) (nodes tree_2) ->
  fst (get_sum (nodes tree_1)) + fst (get_sum (nodes tree_2)) == 0
  /\ get_bsd tree_1 tree_2 = Raise ZeroDivisionError.
Proof.
  intros H1 H2.
  assert (Hz : fst (get_sum (nodes tree_1)) + fst (get_sum (nodes tree_2)) == 0).
  { rewrite !get_sum_eq; simpl.
    rewrite (present_labels_none _ H1), (present_labels_none _ H2).
    reflexivity. }
  split; [exact Hz|].
  rewrite get_bsd_eq. cbv zeta. now rewrite (BSD_zero _ _ _ _ _ Hz).
Qed.

Lemma get_bsd_no_support_witness :
  fst (get_sum (nodes Samples.star)) + fst (get_sum (nodes Samples.star)) == 0
  /\ get_bsd Samples.star Samples.star = Raise ZeroDivisionError.
Proof.
  apply (get_bsd_no_support Samples.star Samples.star);
    simpl; repeat constructor.
Defined.

(** ** Identical trees *)

Lemma identical_trees_labels (t1 t2 : Tree) :
  identical_trees t1 t2 ->
  present_labels (nodes t1) = present_labels (nodes t2).
Proof.
  unfold identical_trees.
  generalize (nodes t1) (nodes t2).
  induction l as [|a l IH]; intros [|b m] H; simpl in *; try discriminate.
  - reflexivity.
  - injection H as _ Hl Hrest. rewrite Hl, (IH m Hrest). reflexivity.
Qed.

Lemma present_labels_in_range (bs : list Node) :
  supports_in_range bs ->
  Forall (fun l => (0 <= l <= 100)%Z) (present_labels bs).
Proof.
  induction 1 as [|b bs Hb _ IH]; simpl; [constructor|].
  destruct (label b); simpl; [constructor; assumption | assumption].
Qed.

Lemma fraction_bounds (l : Z) :
  (0 <= l <= 100)%Z -> 0 <= inject_Z l / 100 /\ inject_Z l / 100 <= 1.
Proof.
  intros [Hlo Hhi]. unfold Qle, Qdiv, Qmult, Qinv, inject_Z; simpl. lia.
Qed.

Lemma py_sum_bounds (ls : list Z) :
  Forall (fun l => (0 <= l <= 100)%Z) ls ->
  0 <= py_sum (map (fun v : Z => inject_Z v / 100) ls)
  /\ py_sum (map (fun v : Z => inject_Z v / 100) ls)
     <= inject_Z (Z.of_nat (List.length ls)).
Proof.
  induction 1 as [|l ls Hl _ [IHlo IHhi]].
  - unfold py_sum; simpl. split; apply Qle_refl.
  - cbn [map List.length]. rewrite py_sum_cons.
    destruct (fraction_bounds l Hl) as [Flo Fhi].
    rewrite Nat2Z.inj_succ, <- Z.add_1_r, inject_Z_plus.
    change (inject_Z 1) with 1. split; lra.
Qed.

Lemma mean_bounds (s : Q) (n : nat) :
  0 <= s -> s <= inject_Z (Z.of_nat n) ->
  0 <= (if (n =? 0)%nat then 0 else s / inject_Z (Z.of_nat n))
  /\ (if (n =? 0)%nat then 0 else s / inject_Z (Z.of_nat n)) <= 1.
Proof.
  intros Hlo Hhi. destruct n as [|n]; cbn [Nat.eqb]; [split; lra|].
  assert (Hpos : 0 < inject_Z (Z.of_nat (S n))).
  { unfold Qlt, inject_Z; simpl. lia. }
  split.
  - apply Qle_shift_div_l; [exact Hpos | lra].
  - apply Qle_shift_div_r; [exact Hpos | lra].
Qed.

Lemma treeA_self_distance :
  exists r : bsd_tuple,
    get_bsd Samples.treeA Samples.treeA' = Return r /\ t_BSD_val r == 9 # 10.
Proof.
  eexists; split; [vm_compute; reflexivity | reflexivity].
Qed.

(** C3, as stated, fails on [treeA] and a second copy of it: the two trees
    are identical and the script reports 0.9. *)
Lemma identical_trees_bsd_not_zero :
  identical_trees Samples.treeA Samples.treeA'
  /\ ~ bsd_is_zero Samples.treeA Samples.treeA'.
Proof.
  split; [reflexivity|].
  intros [r [Hr Hz]].
  destruct treeA_self_distance as [r' [Hr' Hv]].
  rewrite Hr in Hr'. injection Hr' as <-.
  rewrite Hv in Hz. discriminate Hz.
Qed.

(** C3 (amended): for two identical trees whose supports are percentages,
    not all zero, [get_bsd] returns a value; the total counts the support
    of both trees, and the distance lies in (0, 1]: it is not 0. *)
Theorem get_bsd_identical_trees (tree_1 tree_2 : Tree) :
  identical_trees tree_1 tree_2 ->
  supports_in_range (nodes tree_1) ->
  0 < support_sum (nodes tree_1) ->
  exists r : bsd_tuple,
    get_bsd tree_1 tree_2 = Return r
    /\ t_sum_total_BS r == 2 * support_sum (nodes tree_1)
    /\ 0 < t_BSD_val r
    /\ t_BSD_val r <= 1.
Proof.
  intros Hid Hrange Hpos.
  pose proof (identical_trees_labels _ _ Hid) as Hlab.
  pose proof (present_labels_in_range _ Hrange) as HrA.
  assert (HrB : Forall (fun l => (0 <= l <= 100)%Z) (present_labels (nodes tree_2)))
    by (rewrite <- Hlab; exact HrA).
  assert (Hs2 : fst (get_sum (nodes tree_2)) = fst (get_sum (nodes tree_1)))
    by (rewrite !get_sum_eq; simpl; now rewrite Hlab).
  assert (Hst : fst (get_sum (nodes tree_1)) + fst (get_sum (nodes tree_2))
                == 2 * support_sum (nodes tree_1))
    by (rewrite Hs2, get_sum_support_sum; ring).
  assert (Hnz : ~ fst (get_sum (nodes tree_1)) + fst (get_sum (nodes tree_2)) == 0)
    by (rewrite Hst; lra).
  rewrite get_bsd_eq, get_pruned_bips_eq. cbv zeta. cbn [fst snd].
  rewrite (BSD_nonzero _ _ _ _ _ Hnz). cbn [bind].
  eexists; split; [reflexivity|]. cbn [t_sum_total_BS t_BSD_val].
  split; [exact Hst|].
  (* the differing aggregate is the whole of both trees *)
  destruct (get_sum_app (nodes tree_1) (nodes tree_2)) as [Hsd _].
  assert (Hmd : 0 <= mean_of (nodes tree_1 ++ nodes tree_2)
                /\ mean_of (nodes tree_1 ++ nodes tree_2) <= 1).
  { unfold mean_of. rewrite get_sum_eq. cbv iota beta.
    assert (Hall : Forall (fun l => (0 <= l <= 100)%Z)
                     (present_labels (nodes tree_1 ++ nodes tree_2)))
      by (rewrite present_labels_app; apply Forall_app; split; assumption).
    destruct (py_sum_bounds _ Hall) as [Hlo Hhi].
    apply mean_bounds; assumption. }
  destruct Hmd as [Hmlo Hmhi].
  assert (Hm0 : mean_of [] = 0) by reflexivity.
  assert (Hs0 : fst (get_sum []) = 0) by reflexivity.
  rewrite Hm0, Hs0, Hsd.
  set (st := fst (get_sum (nodes tree_1)) + fst (get_sum (nodes tree_2))) in *.
  set (md := mean_of (nodes tree_1 ++ nodes tree_2)) in *.
  assert (E : (1 - 0 / st * 0 + st / st * md) / 2 == (1 + md) * (1 # 2))
    by (field; exact Hnz).
  rewrite E. clearbody md. split; lra.
Qed.

Lemma get_bsd_identical_trees_witness :
  exists r : bsd_tuple,
    get_bsd Samples.treeA Samples.treeA' = Return r
    /\ t_sum_total_BS r == 2 * support_sum (nodes Samples.treeA)
    /\ 0 < t_BSD_val r
    /\ t_BSD_val r <= 1.
Proof.
  apply (get_bsd_identical_trees Samples.treeA Samples.treeA').
  - reflexivity.
  - unfold supports_in_range; simpl; repeat constructor; lia.
  - vm_compute. reflexivity.
Defined.

(** ** Overlap of the two leaf sets *)

(** C4, at two trees over the three taxa A, B, C: [get_bsd] returns a
    distance, 15/16, and raises nothing. *)
Theorem get_bsd_three_taxa :
  taxa_in_common Samples.tree3 Samples.tree3' = ["A"; "B"; "C"]
  /\ exists r : bsd_tuple,
       get_bsd Samples.tree3 Samples.tree3' = Return r
       /\ t_BSD_val r == 15 # 16.
Proof.
  split; [reflexivity|].
  eexists; split; [vm_compute; reflexivity | reflexivity].
Qed.

(** ** get_shared *)

Lemma lookup_outside_module (g : globals) (name : string) :
  module_scope g = true ->
  existsb (String.eqb name) module_names = false ->
  lookup g name = None.
Proof.
  intros Hg Hname. induction g as [|[k v] g IH]; simpl in *; [reflexivity|].
  apply andb_true_iff in Hg. destruct Hg as [Hk Hg].
  destruct (String.eqb_spec k name) as [->|_].
  - rewrite Hname in Hk. discriminate.
  - apply IH. exact Hg.
Qed.

(** C10: in any scope of this module, [get_shared] raises [NameError] on
    [firstTreeNodes], whatever the two arguments are; the assertion is
    not reached and nothing is returned. *)
Theorem get_shared_NameError (g : globals)
  (firstTreeLeaves secondTreeLeaves : pyval) :
  module_scope g = true ->
  get_shared g firstTreeLeaves secondTreeLeaves
  = Raise (NameError "firstTreeNodes").
Proof.
  intro Hg. unfold get_shared, load_global.
  rewrite (lookup_outside_module g "firstTreeNodes" Hg eq_refl).
  reflexivity.
Qed.

Lemma get_shared_NameError_witness :
  get_shared
    (script_globals ["tree_a"; "tree_b"]
                  ["[&R] ((A,B)90,C);"; "[&R] ((A,C)85,B);"]
                    [Samples.tree3; Samples.tree3'])
    (PList [PStr "A"; PStr "B"; PStr "C"])
    (PList [PStr "A"; PStr "C"; PStr "B"])
  = Raise (NameError "firstTreeNodes").
Proof.
  apply get_shared_NameError. reflexivity.
Defined.

(** ** make_distance_matrix *)

Section MatrixProperties.

Variable wrf : Tree -> Tree -> result Q.

(** In the script's scope [trees] holds Newick texts, so [trees[i]] is
    never the Tree [tree_ref]: no index is skipped, and a row that is
    completed gains one cell per tree of [tree_list]. *)
Lemma row_distances_length (g : globals) (texts : list string)
  (tree_list : list Tree) (dist_type : string) (tree_ref : Tree)
  (distances cells : list cell) :
  lookup g "trees" = Some (PList (map PStr texts)) ->
  row_distances wrf g tree_list dist_type tree_ref distances = Return cells ->
  List.length cells = (List.length distances + List.length tree_list)%nat.
Proof.
  intros Hg. unfold row_distances.
  match goal with |- for_each _ ?b _ = _ -> _ => set (body := b) end.
  intro Hrow.
  assert (Haux : forall idxs ds cs,
             for_each idxs body ds = Return cs ->
             List.length cs = (List.length ds + List.length idxs)%nat).
  { induction idxs as [|i idxs IH]; intros ds cs H; simpl in H.
    - injection H as <-. simpl. lia.
    - unfold body at 1 in H. unfold load_global in H. rewrite Hg in H.
      cbn [bind py_index] in H. rewrite nth_error_map in H.
      destruct (nth_error texts i) as [text|]; cbn in H; [|discriminate].
      destruct (nth_error tree_list i) as [tree_i|]; [|discriminate].
      destruct (if String.eqb dist_type "rf"
                then wrf tree_ref tree_i
                else r <- get_bsd tree_ref tree_i ;; Return (t_BSD_val r))
        as [dist_val|e]; cbn [bind] in H; [|discriminate].
      apply IH in H. rewrite H, length_app. simpl. lia. }
  rewrite (Haux _ _ _ Hrow), length_seq. reflexivity.
Qed.

(** C7, at two trees read from two files: each data row has the label
    and two distances, the first row starting with the distance of
    [treeA] to itself. *)
Theorem make_distance_matrix_compares_self :
  exists d11 d12 d21 d22 : Q,
    make_distance_matrix wrf
      (script_globals ["tree_a"; "tree_b"]
         ["(((T1,T2)90,T3)80,(T4,T5)70);"; "(((T1,T2)90,T3)80,(T4,T5)70);"]
         [Samples.treeA; Samples.treeA'])
      [(Samples.treeA, "tree_a"); (Samples.treeA', "tree_b")]
      [Samples.treeA; Samples.treeA'] "bsd"
    = Return ("bsd_matrix.csv",
              [ [CStr ","; CStr "tree_a"; CStr "tree_b"];
                [CStr "tree_a"; CNum d11; CNum d12];
                [CStr "tree_b"; CNum d21; CNum d22] ])
    /\ (exists r, get_bsd Samples.treeA Samples.treeA = Return r
                  /\ t_BSD_val r = d11)
    /\ d11 == 9 # 10.
Proof.
  do 4 eexists. split; [vm_compute; reflexivity|].
  split; [|reflexivity].
  eexists; split; [vm_compute; reflexivity | reflexivity].
Qed.

End MatrixProperties.

(** * Further properties of the code *)

(** ** The matcher and the extractor *)

(** X1: whatever the two lists are, the matcher reports no shared item:
    [bipsEqual] is empty and [bipsDiff] is the first list followed by the
    second, duplicates included. *)
Theorem get_pruned_bips_all_differing (bips1 bips2 : list Node)
  (bipStrings1 bipStrings2 : list (list string)) :
  snd (get_pruned_bips bips1 bipStrings1 bips2 bipStrings2) = []
  /\ fst (get_pruned_bips bips1 bipStrings1 bips2 bipStrings2) = bips1 ++ bips2
  /\ List.length (fst (get_pruned_bips bips1 bipStrings1 bips2 bipStrings2))
     = (List.length bips1 + List.length bips2)%nat.
Proof.
  rewrite get_pruned_bips_eq; simpl. repeat split. apply length_app.
Qed.

(** X2: every entry of the second component of [get_bipartitions] is the
    same list, the Newick strings of all encoded bipartitions of the tree,
    repeated once per item. *)
Theorem get_bipartitions_strings (tree : Tree) :
  snd (get_bipartitions tree)
  = repeat (map bip_newick (encode_bipartitions tree))
           (List.length (nodes tree)).
Proof.
  rewrite get_bipartitions_eq; simpl.
  induction (nodes tree) as [|n ns IH]; simpl; [reflexivity|].
  now rewrite IH.
Qed.

(** ** The aggregator *)

Lemma present_labels_filter (bs : list Node) :
  present_labels (filter has_label bs) = present_labels bs.
Proof.
  induction bs as [|b bs IH]; simpl; [reflexivity|].
  unfold has_label at 1. destruct (label b) eqn:E; simpl.
  - now rewrite E, IH.
  - exact IH.
Qed.

(** X3: items without a label do not matter: dropping them changes
    neither the sum nor the list of labels returned. *)
Theorem get_sum_unlabelled_ignored (bs : list Node) :
  get_sum (filter has_label bs) = get_sum bs.
Proof.
  rewrite !get_sum_eq, present_labels_filter. reflexivity.
Qed.

(** X4: aggregating a concatenation adds the sums and concatenates the
    label lists. *)
Theorem get_sum_concat (xs ys : list Node) :
  fst (get_sum (xs ++ ys)) == fst (get_sum xs) + fst (get_sum ys)
  /\ snd (get_sum (xs ++ ys)) = snd (get_sum xs) ++ snd (get_sum ys).
Proof. apply get_sum_app. Qed.

Lemma get_sum_bounds (bs : list Node) :
  supports_in_range bs ->
  0 <= fst (get_sum bs)
  /\ fst (get_sum bs) <= inject_Z (Z.of_nat (List.length (snd (get_sum bs)))).
Proof.
  intro H. rewrite get_sum_eq; simpl.
  apply py_sum_bounds, present_labels_in_range, H.
Qed.

Lemma mean_of_bounds (bs : list Node) :
  supports_in_range bs -> 0 <= mean_of bs /\ mean_of bs <= 1.
Proof.
  intro H. destruct (get_sum_bounds bs H) as [Hlo Hhi].
  unfold mean_of. destruct (get_sum bs) as [s nums]; simpl in *.
  apply mean_bounds; assumption.
Qed.

(** X5: when every label is a percentage (0..100), the sum lies between 0
    and the number of labelled items, and the mean returned for it lies
    between 0 and 1. *)
Theorem support_in_unit_range (bs : list Node) :
  supports_in_range bs ->
  0 <= fst (get_sum bs)
  /\ fst (get_sum bs) <= inject_Z (Z.of_nat (support_count bs))
  /\ exists mean : Q,
       get_mean_BSD (fst (get_sum bs)) (snd (get_sum bs)) = Return mean
       /\ 0 <= mean /\ mean <= 1.
Proof.
  intro H. destruct (get_sum_bounds bs H) as [Hlo Hhi].
  rewrite get_sum_support_count in Hhi.
  split; [exact Hlo|]. split; [exact Hhi|].
  rewrite get_mean_BSD_eq. eexists; split; [reflexivity|].
  pose proof (mean_of_bounds bs H) as Hm. unfold mean_of in Hm.
  destruct (get_sum bs) as [s nums]; simpl in *. exact Hm.
Qed.

Lemma support_in_unit_range_witness :
  0 <= fst (get_sum (nodes Samples.treeA))
  /\ fst (get_sum (nodes Samples.treeA))
     <= inject_Z (Z.of_nat (support_count (nodes Samples.treeA)))
  /\ exists mean : Q,
       get_mean_BSD (fst (get_sum (nodes Samples.treeA)))
                    (snd (get_sum (nodes Samples.treeA))) = Return mean
       /\ 0 <= mean /\ mean <= 1.
Proof.
  apply (support_in_unit_range (nodes Samples.treeA)).
  unfold supports_in_range; simpl; repeat constructor; lia.
Defined.

(** ** get_bsd *)

Lemma Return_inj {A : Type} (a b : A) : Return a = Return b -> a = b.
Proof. intro H. injection H as H. exact H. Qed.

Lemma get_bsd_cases (tree_1 tree_2 : Tree) :
  (sum_total tree_1 tree_2 == 0
   /\ get_bsd tree_1 tree_2 = Raise ZeroDivisionError)
  \/ (~ sum_total tree_1 tree_2 == 0
      /\ get_bsd tree_1 tree_2
         = Return
             (let st := sum_total tree_1 tree_2 in
              let both := nodes tree_1 ++ nodes tree_2 in
              let sd := fst (get_sum both) in
              mkBsd ((1 - 0 / st * 0 + sd / st * mean_of both) / 2)
                    (1 - 0 / st * 0) (sd / st * mean_of both)
                    st 0 sd 0 (mean_of both))).
Proof.
  unfold sum_total.
  destruct (Qeq_dec (fst (get_sum (nodes tree_1)) + fst (get_sum (nodes tree_2))) 0)
    as [Hz|Hnz]; [left | right]; (split; [assumption|]);
    rewrite get_bsd_eq, get_pruned_bips_eq; cbv zeta; cbn [fst snd].
  - now rewrite (BSD_zero _ _ _ _ _ Hz).
  - rewrite (BSD_nonzero _ _ _ _ _ Hnz). reflexivity.
Qed.

Lemma support_sum_nonneg (bs : list Node) :
  supports_in_range bs -> 0 <= support_sum bs.
Proof.
  intro H. rewrite <- get_sum_support_sum.
  apply get_sum_bounds. exact H.
Qed.

Lemma label_fraction_positive (l : Z) : (0 < l)%Z -> 0 < inject_Z l / 100.
Proof.
  intro H. unfold Qlt, Qdiv, Qmult, Qinv, inject_Z; simpl. lia.
Qed.

Lemma no_positive_label_sum (bs : list Node) :
  supports_in_range bs -> has_positive_label bs = false ->
  fst (get_sum bs) == 0.
Proof.
  intros Hr Hn. rewrite get_sum_support_sum.
  induction Hr as [|b bs Hb Hr IH]; simpl in *; [reflexivity|].
  apply orb_false_iff in Hn. destruct Hn as [Hb0 Hrest].
  destruct (label b) as [l|]; [|exact (IH Hrest)].
  apply Z.ltb_ge in Hb0. assert (l = 0%Z) by lia. subst l.
  rewrite (IH Hrest). reflexivity.
Qed.

Lemma positive_label_sum (bs : list Node) :
  supports_in_range bs -> has_positive_label bs = true ->
  0 < fst (get_sum bs).
Proof.
  intros Hr Hp. rewrite get_sum_support_sum.
  induction Hr as [|b bs Hb Hr IH]; simpl in *; [discriminate|].
  pose proof (support_sum_nonneg bs Hr) as Hrest.
  destruct (label b) as [l|]; [|exact (IH Hp)].
  destruct (fraction_bounds l Hb) as [Flo _].
  destruct (0 <? l)%Z eqn:E.
  - apply Z.ltb_lt in E. pose proof (label_fraction_positive l E). lra.
  - simpl in Hp. specialize (IH Hp). lra.
Qed.

(** X6: when every support label is a percentage (an integer 0..100),
    [get_bsd] returns a tuple exactly when some label of either tree is
    above 0; when every label is absent or 0 it raises
    [ZeroDivisionError], and it raises nothing else. *)
Theorem get_bsd_returns_iff_support (tree_1 tree_2 : Tree) :
  supports_in_range (nodes tree_1) ->
  supports_in_range (nodes tree_2) ->
  match get_bsd tree_1 tree_2 with
  | Return _ => has_positive_label (nodes tree_1 ++ nodes tree_2) = true
  | Raise e =>
      e = ZeroDivisionError
      /\ has_positive_label (nodes tree_1 ++ nodes tree_2) = false
  end.
Proof.
  intros H1 H2.
  assert (Hboth : supports_in_range (nodes tree_1 ++ nodes tree_2))
    by (apply Forall_app; split; assumption).
  destruct (get_sum_app (nodes tree_1) (nodes tree_2)) as [Hsum _].
  fold (sum_total tree_1 tree_2) in Hsum.
  destruct (has_positive_label (nodes tree_1 ++ nodes tree_2)) eqn:Ep.
  - pose proof (positive_label_sum _ Hboth Ep) as Hpos. rewrite Hsum in Hpos.
    destruct (get_bsd_cases tree_1 tree_2) as [[Hz _]|[_ Hr]];
      [rewrite Hz in Hpos; lra | rewrite Hr; reflexivity].
  - pose proof (no_positive_label_sum _ Hboth Ep) as Hz. rewrite Hsum in Hz.
    destruct (get_bsd_cases tree_1 tree_2) as [[_ He]|[Hnz _]];
      [rewrite He; split; reflexivity | contradiction].
Qed.

Lemma get_bsd_returns_iff_support_witness :
  match get_bsd Samples.tree3 Samples.star with
  | Return _ =>
      has_positive_label (nodes Samples.tree3 ++ nodes Samples.star) = true
  | Raise e =>
      e = ZeroDivisionError
      /\ has_positive_label (nodes Samples.tree3 ++ nodes Samples.star) = false
  end.
Proof.
  apply (get_bsd_returns_iff_support Samples.tree3 Samples.star);
    unfold supports_in_range; simpl; repeat constructor; lia.
Defined.

Lemma get_bsd_components (tree_1 tree_2 : Tree) (r : bsd_tuple) :
  get_bsd tree_1 tree_2 = Return r ->
  t_sum_mutual_BS r = 0
  /\ t_mean_BS_mutual r = 0
  /\ t_eBSD r == 1
  /\ t_sum_diff_BS r == t_sum_total_BS r
  /\ t_mean_BS_diff r = mean_of (nodes tree_1 ++ nodes tree_2)
  /\ t_dBSD r == t_mean_BS_diff r
  /\ t_BSD_val r == (1 + t_mean_BS_diff r) * (1 # 2).
Proof.
  intro H.
  destruct (get_bsd_cases tree_1 tree_2) as [[_ He]|[Hnz Hr]];
    rewrite H in *; [discriminate|].
  apply Return_inj in Hr. subst r. cbv zeta.
  cbn [t_sum_mutual_BS t_mean_BS_mutual t_eBSD t_sum_diff_BS t_sum_total_BS
       t_mean_BS_diff t_dBSD t_BSD_val].
  destruct (get_sum_app (nodes tree_1) (nodes tree_2)) as [Hsd _].
  fold (sum_total tree_1 tree_2) in Hsd.
  set (sd := fst (get_sum (nodes tree_1 ++ nodes tree_2))) in *.
  set (st := sum_total tree_1 tree_2) in *.
  set (md := mean_of (nodes tree_1 ++ nodes tree_2)).
  split; [reflexivity|]. split; [reflexivity|].
  split; [field; exact Hnz|]. split; [exact Hsd|]. split; [reflexivity|].
  clearbody sd st md.
  split; rewrite Hsd; field; exact Hnz.
Qed.

(** X7: whenever [get_bsd] returns, the shared aggregate is empty (sum and
    mean 0), eBSD is 1, the differing sum is the whole total, dBSD is the
    mean support over the labelled items of both trees, and BSD is
    (1 + that mean) / 2. *)
Theorem get_bsd_values (tree_1 tree_2 : Tree) (r : bsd_tuple) :
  get_bsd tree_1 tree_2 = Return r ->
  t_sum_mutual_BS r = 0
  /\ t_mean_BS_mutual r = 0
  /\ t_eBSD r == 1
  /\ t_sum_diff_BS r == t_sum_total_BS r
  /\ t_mean_BS_diff r = mean_of (nodes tree_1 ++ nodes tree_2)
  /\ t_dBSD r == t_mean_BS_diff r
  /\ t_BSD_val r == (1 + t_mean_BS_diff r) * (1 # 2).
Proof. apply get_bsd_components. Qed.

Lemma get_bsd_values_witness :
  exists r : bsd_tuple,
    get_bsd Samples.tree3 Samples.tree3' = Return r
    /\ t_eBSD r == 1
    /\ t_dBSD r == t_mean_BS_diff r.
Proof.
  destruct (get_bsd Samples.tree3 Samples.tree3') as [r|e] eqn:E;
    [|vm_compute in E; discriminate E].
  exists r. split; [reflexivity|].
  pose proof (get_bsd_values Samples.tree3 Samples.tree3' r E) as H.
  tauto.
Defined.

(** X8: when the labels of both trees are percentages and [get_bsd]
    returns, the distance lies between 1/2 and 1 and dBSD between 0 and 1,
    however similar the two trees are. *)
Theorem get_bsd_at_least_half (tree_1 tree_2 : Tree) (r : bsd_tuple) :
  supports_in_range (nodes tree_1) ->
  supports_in_range (nodes tree_2) ->
  get_bsd tree_1 tree_2 = Return r ->
  1 # 2 <= t_BSD_val r /\ t_BSD_val r <= 1
  /\ 0 <= t_dBSD r /\ t_dBSD r <= 1.
Proof.
  intros H1 H2 H.
  destruct (get_bsd_components _ _ _ H) as (_ & _ & _ & _ & Hm & Hd & Hv).
  assert (Hboth : supports_in_range (nodes tree_1 ++ nodes tree_2))
    by (apply Forall_app; split; assumption).
  destruct (mean_of_bounds _ Hboth) as [Hlo Hhi].
  rewrite <- Hm in Hlo, Hhi.
  rewrite Hv, Hd. repeat split; lra.
Qed.

Lemma get_bsd_at_least_half_witness :
  exists r : bsd_tuple,
    get_bsd Samples.tree3 Samples.tree3' = Return r
    /\ 1 # 2 <= t_BSD_val r /\ t_BSD_val r <= 1.
Proof.
  destruct (get_bsd Samples.tree3 Samples.tree3') as [r|e] eqn:E;
    [|vm_compute in E; discriminate E].
  exists r. split; [reflexivity|].
  assert (R1 : supports_in_range (nodes Samples.tree3))
    by (unfold supports_in_range; simpl; repeat constructor; lia).
  assert (R2 : supports_in_range (nodes Samples.tree3'))
    by (unfold supports_in_range; simpl; repeat constructor; lia).
  pose proof (get_bsd_at_least_half Samples.tree3 Samples.tree3' r R1 R2 E) as H.
  tauto.
Defined.

Lemma mean_of_comm (xs ys : list Node) :
  mean_of (xs ++ ys) == mean_of (ys ++ xs).
Proof.
  unfold mean_of. rewrite !get_sum_eq. cbv iota beta.
  rewrite !present_labels_app, !length_app, !map_app.
  rewrite (Nat.add_comm (List.length (present_labels ys))).
  destruct (_ =? 0)%nat; [reflexivity|].
  rewrite !py_sum_app.
  rewrite (Qplus_comm (py_sum (map _ (present_labels ys)))). reflexivity.
Qed.

(** X9: the distance is symmetric: if [get_bsd] returns for a pair it
    returns for the swapped pair, with equal total, BSD, eBSD and dBSD
    (as rationals). *)
Theorem get_bsd_symmetric (tree_1 tree_2 : Tree) (r : bsd_tuple) :
  get_bsd tree_1 tree_2 = Return r ->
  exists r' : bsd_tuple,
    get_bsd tree_2 tree_1 = Return r'
    /\ t_sum_total_BS r' == t_sum_total_BS r
    /\ t_BSD_val r' == t_BSD_val r
    /\ t_eBSD r' == t_eBSD r
    /\ t_dBSD r' == t_dBSD r.
Proof.
  intro H.
  assert (Hst : sum_total tree_2 tree_1 == sum_total tree_1 tree_2)
    by (unfold sum_total; ring).
  destruct (get_bsd_cases tree_1 tree_2) as [[_ He]|[Hnz Hr]];
    rewrite H in *; [discriminate|].
  destruct (get_bsd_cases tree_2 tree_1) as [[Hz' _]|[_ Hr']];
    [rewrite Hst in Hz'; contradiction|].
  destruct (get_bsd tree_2 tree_1) as [r'|] eqn:E'; [|discriminate].
  exists r'. split; [reflexivity|].
  destruct (get_bsd_components _ _ _ H) as (_ & _ & He1 & _ & Hm1 & Hd1 & Hv1).
  destruct (get_bsd_components _ _ _ E') as (_ & _ & He2 & _ & Hm2 & Hd2 & Hv2).
  assert (Hm : t_mean_BS_diff r' == t_mean_BS_diff r)
    by (rewrite Hm1, Hm2; apply mean_of_comm).
  apply Return_inj in Hr. apply Return_inj in Hr'.
  repeat split.
  - rewrite Hr, Hr'. exact Hst.
  - rewrite Hv1, Hv2, Hm. reflexivity.
  - rewrite He1, He2. reflexivity.
  - rewrite Hd1, Hd2, Hm. reflexivity.
Qed.

Lemma get_bsd_symmetric_witness :
  exists r r' : bsd_tuple,
    get_bsd Samples.tree3 Samples.tree3' = Return r
    /\ get_bsd Samples.tree3' Samples.tree3 = Return r'
    /\ t_BSD_val r' == t_BSD_val r.
Proof.
  destruct (get_bsd Samples.tree3 Samples.tree3') as [r|e] eqn:E;
    [|vm_compute in E; discriminate E].
  destruct (get_bsd_symmetric Samples.tree3 Samples.tree3' r E)
    as [r' [E' [_ [Hv _]]]].
  exists r, r'. repeat split; assumption.
Defined.

(** X10: the distance looks at support labels only: two pairs of trees
    whose items carry the same labels in the same order get the same
    result, whatever their splits are. *)
Theorem get_bsd_labels_only (tree_1 tree_2 tree_1' tree_2' : Tree) :
  map label (nodes tree_1) = map label (nodes tree_1') ->
  map label (nodes tree_2) = map label (nodes tree_2') ->
  get_bsd tree_1 tree_2 = get_bsd tree_1' tree_2'.
Proof.
  assert (Hpl : forall xs ys : list Node,
             map label xs = map label ys ->
             present_labels xs = present_labels ys).
  { induction xs as [|x xs IH]; intros [|y ys] Heq; simpl in *;
      try discriminate; [reflexivity|].
    injection Heq as Hx Hrest. rewrite Hx, (IH ys Hrest). reflexivity. }
  intros H1 H2. apply Hpl in H1. apply Hpl in H2.
  rewrite !get_bsd_eq, !get_pruned_bips_eq. cbv zeta. cbn [fst snd].
  unfold mean_of. rewrite !get_sum_eq, !present_labels_app, H1, H2.
  reflexivity.
Qed.

Lemma get_bsd_labels_only_witness :
  get_bsd Samples.tree3 Samples.tree3'
  = get_bsd MoreSamples.tree3_other Samples.tree3'.
Proof.
  apply get_bsd_labels_only; reflexivity.
Defined.

(** ** get_diff *)

Section SetsOfLeavesProperties.

Context {A : Type} (eqb : A -> A -> bool).
Hypothesis eqb_eq : forall x y : A, eqb x y = true <-> x = y.

Lemma existsb_eqb_In (x : A) (l : list A) :
  existsb (eqb x) l = true <-> In x l.
Proof.
  rewrite existsb_exists. split.
  - intros [y [Hy Hxy]]. apply eqb_eq in Hxy. now subst.
  - intro H. exists x. split; [exact H | now apply eqb_eq].
Qed.

Lemma set_of_acc (xs acc : list A) :
  NoDup acc ->
  let s := fold_left
             (fun acc x => if existsb (eqb x) acc then acc else acc ++ [x])
             xs acc in
  NoDup s /\ forall x, In x s <-> In x acc \/ In x xs.
Proof.
  revert acc; induction xs as [|y xs IH]; intros acc Hnd; simpl.
  - split; [exact Hnd | intro x; tauto].
  - destruct (existsb (eqb y) acc) eqn:E.
    + apply existsb_eqb_In in E.
      destruct (IH acc Hnd) as [Hs Hin]. split; [exact Hs|].
      intro x. rewrite Hin. intuition (subst; auto).
    + assert (Hy : ~ In y acc).
      { intro Hy. apply existsb_eqb_In in Hy. congruence. }
      assert (Hnd' : NoDup (acc ++ [y])).
      { apply NoDup_app; repeat split; try assumption.
        - constructor; [intros []|constructor].
        - intros a Ha [<-|[]]. exact (Hy Ha). }
      destruct (IH (acc ++ [y]) Hnd') as [Hs Hin]. split; [exact Hs|].
      intro x. rewrite Hin, in_app_iff. simpl. tauto.
Qed.

Lemma set_of_spec (xs : list A) :
  NoDup (set_of eqb xs) /\ forall x, In x (set_of eqb xs) <-> In x xs.
Proof.
  destruct (set_of_acc xs [] (NoDup_nil A)) as [Hs Hin].
  split; [exact Hs|]. intro x. fold (set_of eqb xs) in Hin.
  rewrite Hin. simpl. tauto.
Qed.

Lemma get_diff_In (firstTreeLeaves secondTreeLeaves : list A)
  (x : A) :
  In x (get_diff eqb firstTreeLeaves secondTreeLeaves)
  <-> (In x firstTreeLeaves /\ ~ In x secondTreeLeaves)
      \/ (In x secondTreeLeaves /\ ~ In x firstTreeLeaves).
Proof.
  unfold get_diff. cbv zeta.
  destruct (set_of_spec firstTreeLeaves) as [_ H1].
  destruct (set_of_spec secondTreeLeaves) as [_ H2].
  rewrite in_app_iff, !filter_In, !negb_true_iff, H1, H2.
  rewrite <- !not_true_iff_false, !existsb_eqb_In, H1, H2. tauto.
Qed.

(** X11: a leaf is in the result of [get_diff] exactly when it occurs in
    one of the two lists and not in the other. *)
Theorem get_diff_exactly_one (firstTreeLeaves secondTreeLeaves : list A)
  (x : A) :
  In x (get_diff eqb firstTreeLeaves secondTreeLeaves)
  <-> (In x firstTreeLeaves /\ ~ In x secondTreeLeaves)
      \/ (In x secondTreeLeaves /\ ~ In x firstTreeLeaves).
Proof. apply get_diff_In. Qed.

(** X12: the result of [get_diff] lists no leaf twice, however often it
    occurs in the arguments. *)
Theorem get_diff_NoDup (firstTreeLeaves secondTreeLeaves : list A) :
  NoDup (get_diff eqb firstTreeLeaves secondTreeLeaves).
Proof.
  unfold get_diff. cbv zeta.
  destruct (set_of_spec firstTreeLeaves) as [N1 H1].
  destruct (set_of_spec secondTreeLeaves) as [N2 H2].
  apply NoDup_app; repeat split.
  - apply NoDup_filter, N1.
  - apply NoDup_filter, N2.
  - intros a Ha Hb. apply filter_In in Ha, Hb.
    destruct Ha as [Ha _]. destruct Hb as [_ Hb].
    apply negb_true_iff in Hb. apply not_true_iff_false in Hb.
    apply Hb. apply existsb_eqb_In. exact Ha.
Qed.

(** X13: [get_diff] is empty exactly when the two lists hold the same
    leaves; in particular a list differs from itself in nothing. *)
Theorem get_diff_empty_iff (firstTreeLeaves secondTreeLeaves : list A) :
  get_diff eqb firstTreeLeaves secondTreeLeaves = []
  <-> (forall x, In x firstTreeLeaves <-> In x secondTreeLeaves).
Proof.
  split.
  - intros He x.
    pose proof (get_diff_In firstTreeLeaves secondTreeLeaves x) as H.
    rewrite He in H. simpl in H.
    destruct (existsb (eqb x) firstTreeLeaves) eqn:E1;
      destruct (existsb (eqb x) secondTreeLeaves) eqn:E2;
      try apply existsb_eqb_In in E1; try apply existsb_eqb_In in E2;
      try tauto.
    + exfalso. apply H. left. split; [exact E1|].
      intro Hc. apply existsb_eqb_In in Hc. congruence.
    + exfalso. apply H. right. split; [exact E2|].
      intro Hc. apply existsb_eqb_In in Hc. congruence.
    + split; intro Hc; apply existsb_eqb_In in Hc; congruence.
  - intro Hsame.
    destruct (get_diff eqb firstTreeLeaves secondTreeLeaves) as [|x l] eqn:E;
      [reflexivity|].
    assert (Hx : In x (get_diff eqb firstTreeLeaves secondTreeLeaves))
      by (rewrite E; left; reflexivity).
    apply get_diff_In in Hx. specialize (Hsame x). tauto.
Qed.

End SetsOfLeavesProperties.

Lemma get_diff_exactly_one_witness :
  In "T3" (get_diff String.eqb ["T1"; "T2"; "T3"] ["T2"; "T1"; "T4"])
  <-> (In "T3" ["T1"; "T2"; "T3"] /\ ~ In "T3" ["T2"; "T1"; "T4"])
      \/ (In "T3" ["T2"; "T1"; "T4"] /\ ~ In "T3" ["T1"; "T2"; "T3"]).
Proof.
  apply (get_diff_exactly_one String.eqb String.eqb_eq).
Defined.

Lemma get_diff_NoDup_witness :
  NoDup (get_diff String.eqb ["T1"; "T2"; "T3"; "T3"] ["T2"; "T1"; "T4"; "T4"]).
Proof.
  apply (get_diff_NoDup String.eqb String.eqb_eq).
Defined.

Lemma get_diff_empty_iff_witness :
  get_diff String.eqb ["T1"; "T2"; "T1"] ["T2"; "T1"] = []
  <-> (forall x, In x ["T1"; "T2"; "T1"] <-> In x ["T2"; "T1"]).
Proof.
  apply (get_diff_empty_iff String.eqb String.eqb_eq).
Defined.

(** ** The driver: discovering the tree files *)

Lemma py_split_first (sep : ascii) (s : string) :
  exists pieces, py_split sep s = before sep s :: pieces.
Proof.
  induction s as [|c rest [pieces IH]]; simpl.
  - eexists; reflexivity.
  - destruct (Ascii.eqb c sep); [eexists; reflexivity|].
    rewrite IH. eexists; reflexivity.
Qed.

Lemma before_no_sep (sep : ascii) (s : string) :
  occurs sep (before sep s) = false.
Proof.
  induction s as [|c rest IH]; simpl; [reflexivity|].
  destruct (Ascii.eqb c sep) eqn:E; simpl; [reflexivity|].
  now rewrite E, IH.
Qed.

Lemma before_append (sep : ascii) (base rest : string) :
  occurs sep base = false ->
  before sep (base ++ String sep rest)%string = base.
Proof.
  induction base as [|c base IH]; simpl; intro H.
  - now rewrite Ascii.eqb_refl.
  - apply orb_false_iff in H. destruct H as [Hc Hb].
    rewrite Hc, (IH Hb). reflexivity.
Qed.

Lemma py_remove_gone (c : ascii) (s : string) :
  occurs c (py_remove c s) = false.
Proof.
  induction s as [|d rest IH]; simpl; [reflexivity|].
  destruct (Ascii.eqb d c) eqn:E; simpl; [exact IH|].
  now rewrite E, IH.
Qed.

Lemma discover_acc (listing : list (string * string))
  (files trees : list string) :
  for_each listing
    (fun '(files, trees) '(filename, content) =>
       if endswith filename ".treefile" then
         let name := py_split dot filename in
         match nth_error name 0 with
         | None => Raise IndexError
         | Some name_0 =>
             let tree_name := ("tree_" ++ name_0)%string in
             let tree_temp := py_remove newline content in
             Return (files ++ [tree_name], trees ++ [tree_temp])
         end
       else Return (files, trees))
    (files, trees)
  = Return
      (files ++ map (fun entry => ("tree_" ++ before dot (fst entry))%string)
                    (treefiles listing),
       trees ++ map (fun entry => py_remove newline (snd entry))
                    (treefiles listing)).
Proof.
  revert files trees.
  induction listing as [|[filename content] listing IH]; intros files trees.
  - simpl. now rewrite !app_nil_r.
  - cbn [for_each]. unfold treefiles. cbn [filter fst].
    fold (treefiles listing).
    destruct (endswith filename ".treefile"); cbn [bind].
    + cbv zeta. destruct (py_split_first dot filename) as [pieces ->].
      cbn [nth_error bind]. rewrite IH. cbn [map fst snd].
      now rewrite <- !app_assoc.
    + apply IH.
Qed.

Lemma discover_eq (listing : list (string * string)) :
  discover listing
  = Return
      (map (fun entry => ("tree_" ++ before dot (fst entry))%string)
           (treefiles listing),
       map (fun entry => py_remove newline (snd entry)) (treefiles listing)).
Proof. unfold discover. apply discover_acc. Qed.

Lemma discover_files_acc (read : string -> result string)
  (names files trees : list string) :
  for_each names
    (fun '(files, trees) filename =>
       if endswith filename ".treefile" then
         let name := py_split dot filename in
         match nth_error name 0 with
         | None => Raise IndexError
         | Some name_0 =>
             let tree_name := ("tree_" ++ name_0)%string in
             content <- read filename ;;
             let tree_temp := py_remove newline content in
             Return (files ++ [tree_name], trees ++ [tree_temp])
         end
       else Return (files, trees))
    (files, trees)
  = (contents <-
       mapM read (filter (fun n => endswith n ".treefile") names) ;;
     Return
       (files ++ map (fun n => ("tree_" ++ before dot n)%string)
                     (filter (fun n => endswith n ".treefile") names),
        trees ++ map (py_remove newline) contents)).
Proof.
  revert files trees.
  induction names as [|filename names IH]; intros files trees.
  - simpl. now rewrite !app_nil_r.
  - cbn [for_each filter].
    destruct (endswith filename ".treefile"); cbn [bind]; [|apply IH].
    cbv zeta. destruct (py_split_first dot filename) as [pieces Hp].
    rewrite Hp. cbn [nth_error mapM].
    destruct (read filename) as [content|e]; cbn [bind]; [|reflexivity].
    rewrite IH. destruct (mapM read _) as [contents|e]; cbn [bind map];
      [|reflexivity].
    now rewrite <- !app_assoc.
Qed.

(** X14: the discovery loop opens only the entries whose name ends in
    [.treefile], in listing order, and the first open or read that raises
    is its outcome; when all of them can be read it returns, for each, the
    label [tree_] followed by the part of the file name before its first
    dot, and the file content with the newlines removed.  Indexing
    [name[0]] never raises. *)
Theorem discover_files_outcome (read : string -> result string)
  (names : list string) :
  discover_files read names
  = (contents <-
       mapM read (filter (fun n => endswith n ".treefile") names) ;;
     Return
       (map (fun n => ("tree_" ++ before dot n)%string)
            (filter (fun n => endswith n ".treefile") names),
        map (py_remove newline) contents)).
Proof. unfold discover_files. apply discover_files_acc. Qed.

(** [discover] is that loop when every read succeeds. *)
Lemma discover_files_read (read : string -> result string)
  (listing : list (string * string)) :
  Forall (fun entry => read (fst entry) = Return (snd entry)) listing ->
  discover_files read (map fst listing) = discover listing.
Proof.
  intro H. unfold discover_files. rewrite discover_files_acc, discover_eq.
  cbn [app].
  assert (Hf : filter (fun n => endswith n ".treefile") (map fst listing)
               = map fst (treefiles listing)).
  { unfold treefiles. clear H.
    induction listing as [|[filename content] listing IH];
      cbn [map filter fst]; [reflexivity|].
    destruct (endswith filename ".treefile"); cbn [map fst];
      now rewrite IH. }
  assert (Hr : mapM read (map fst (treefiles listing))
               = Return (map snd (treefiles listing))).
  { assert (Ht : Forall (fun entry => read (fst entry) = Return (snd entry))
                        (treefiles listing)).
    { apply Forall_forall. intros entry Hin. unfold treefiles in Hin.
      apply filter_In in Hin. rewrite Forall_forall in H.
      apply H. tauto. }
    revert Ht. generalize (treefiles listing) as l.
    induction 1 as [|entry l Hread _ IH]; simpl; [reflexivity|].
    rewrite Hread. cbn [bind]. rewrite IH. reflexivity. }
  rewrite Hf, Hr. cbn [bind]. now rewrite !map_map.
Qed.

(** X15: what [discover] returns is well-formed: as many labels as texts,
    no text contains a newline, and no label contains a dot after its
    [tree_] prefix. *)
Theorem discover_invariants (listing : list (string * string))
  (files trees : list string) :
  discover listing = Return (files, trees) ->
  List.length files = List.length trees
  /\ Forall (fun text => occurs newline text = false) trees
  /\ Forall (fun name => exists stem : string,
                 name = ("tree_" ++ stem)%string /\ occurs dot stem = false)
            files.
Proof.
  rewrite discover_eq. intro H. apply Return_inj in H.
  injection H as <- <-.
  split; [now rewrite !length_map|]. split.
  - apply Forall_map, Forall_forall. intros entry _. apply py_remove_gone.
  - apply Forall_map, Forall_forall. intros entry _.
    eexists; split; [reflexivity | apply before_no_sep].
Qed.

Lemma discover_invariants_witness :
  List.length ["tree_1"; "tree_2"] = List.length ["(A,B);"; "(A,(B,C));"]
  /\ Forall (fun text => occurs newline text = false) ["(A,B);"; "(A,(B,C));"]
  /\ Forall (fun name => exists stem : string,
                 name = ("tree_" ++ stem)%string /\ occurs dot stem = false)
            ["tree_1"; "tree_2"].
Proof.
  apply (discover_invariants
           [ ("1.treefile", String "(" (String "A" (String newline ",B);")));
             ("README.md", "notes");
             ("2.contree.treefile", "(A,(B,C));") ]).
  reflexivity.
Defined.

(** X16: two tree files whose names agree up to the first dot get the
    same label: only that first part of the name is kept. *)
Theorem discover_labels_collide (stem rest1 rest2 text1 text2 : string) :
  occurs dot stem = false ->
  endswith (stem ++ String dot rest1)%string ".treefile" = true ->
  endswith (stem ++ String dot rest2)%string ".treefile" = true ->
  exists trees : list string,
    discover [ ((stem ++ String dot rest1)%string, text1);
               ((stem ++ String dot rest2)%string, text2) ]
    = Return ([("tree_" ++ stem)%string; ("tree_" ++ stem)%string], trees).
Proof.
  intros Hs H1 H2. rewrite discover_eq. unfold treefiles.
  cbn [filter fst]. rewrite H1, H2. cbn [map fst snd].
  rewrite !(before_append dot stem _ Hs). eexists; reflexivity.
Qed.

Lemma discover_labels_collide_witness :
  exists trees : list string,
    discover [ ("7.run1.treefile", "(A,B);"); ("7.run2.treefile", "(B,A);") ]
    = Return (["tree_7"; "tree_7"], trees).
Proof.
  apply (discover_labels_collide "7" "run1.treefile" "run2.treefile");
    reflexivity.
Defined.

(** ** Loops in the exception monad *)

Section ForEach.

Context {A St : Type}.

Lemma for_each_ext (xs : list A) (body body' : St -> A -> result St) (s : St) :
  (forall s x, In x xs -> body s x = body' s x) ->
  for_each xs body s = for_each xs body' s.
Proof.
  revert s; induction xs as [|x xs IH]; intros s H; simpl; [reflexivity|].
  rewrite (H s x (or_introl eq_refl)).
  destruct (body' s x) as [s'|e]; simpl; [|reflexivity].
  apply IH. intros s0 y Hy. apply H. right. exact Hy.
Qed.

Lemma for_each_seq (l : list A) (body : St -> nat -> result St)
  (step : St -> A -> result St) (k : nat) (s : St) :
  (forall i x s, nth_error l i = Some x -> body s (k + i)%nat = step s x) ->
  for_each (seq k (List.length l)) body s = for_each l step s.
Proof.
  revert k s; induction l as [|x l IH]; intros k s H; simpl; [reflexivity|].
  rewrite <- (Nat.add_0_r k) at 1. rewrite (H 0%nat x s eq_refl).
  destruct (step s x) as [s'|e]; simpl; [|reflexivity].
  apply IH. intros i y s0 Hy.
  replace (S k + i)%nat with (k + S i)%nat by lia.
  apply (H (S i)). exact Hy.
Qed.


End ForEach.

Section MapM.

Context {A B : Type}.

Lemma for_each_mapM (f : A -> result B) (xs : list A) (acc : list B) :
  for_each xs (fun acc x => y <- f x ;; Return (acc ++ [y])) acc
  = (ys <- mapM f xs ;; Return (acc ++ ys)).
Proof.
  revert acc; induction xs as [|x xs IH]; intros acc; simpl.
  - now rewrite app_nil_r.
  - destruct (f x) as [y|e]; simpl; [|reflexivity].
    rewrite IH. destruct (mapM f xs) as [ys|e]; simpl; [|reflexivity].
    now rewrite <- app_assoc.
Qed.



Lemma mapM_length (f : A -> result B) (xs : list A) (ys : list B) :
  mapM f xs = Return ys -> List.length ys = List.length xs.
Proof.
  revert ys; induction xs as [|x xs IH]; intros ys H; simpl in H.
  - apply Return_inj in H. now subst.
  - destruct (f x) as [y|e]; simpl in H; [|discriminate].
    destruct (mapM f xs) as [ys'|e]; simpl in H; [|discriminate].
    apply Return_inj in H. subst ys. simpl. now rewrite (IH ys' eq_refl).
Qed.

Lemma mapM_Forall2 (f : A -> result B) (xs : list A) (ys : list B) :
  mapM f xs = Return ys -> Forall2 (fun x y => f x = Return y) xs ys.
Proof.
  revert ys; induction xs as [|x xs IH]; intros ys H; simpl in H.
  - apply Return_inj in H. subst. constructor.
  - destruct (f x) as [y|e] eqn:E; simpl in H; [|discriminate].
    destruct (mapM f xs) as [ys'|e]; simpl in H; [|discriminate].
    apply Return_inj in H. subst ys. constructor; [exact E | now apply IH].
Qed.


End MapM.

(** ** The dictionary of labels *)

Lemma dict_get_in (d : tree_dict_t) (k : Tree) (v : string) :
  distinct_keys d -> In (k, v) d -> dict_get d k = Return v.
Proof.
  unfold distinct_keys.
  induction d as [|[k' v'] d IH]; intros Hnd Hin; [destruct Hin|].
  simpl in *. inversion Hnd as [|x l Hnotin Hnd' Heq]; subst.
  destruct Hin as [Heq|Hin].
  - injection Heq as -> ->. now rewrite Pos.eqb_refl.
  - destruct (Pos.eqb_spec (tree_id k') (tree_id k)) as [E|_].
    + exfalso. apply Hnotin. rewrite E.
      apply (in_map (fun kv => tree_id (fst kv)) d (k, v) Hin).
    + apply IH; assumption.
Qed.


Lemma dict_get_missing (d : tree_dict_t) (k : Tree) :
  ~ In (tree_id k) (map (fun kv => tree_id (fst kv)) d) ->
  dict_get d k = Raise KeyError.
Proof.
  induction d as [|[k' v'] d IH]; intro Hnot; simpl in *; [reflexivity|].
  destruct (Pos.eqb_spec (tree_id k') (tree_id k)) as [E|_].
  - exfalso. apply Hnot. left. exact E.
  - apply IH. intro H. apply Hnot. right. exact H.
Qed.


(** ** make_distance_matrix in full *)

Section MatrixMore.

Variable wrf : Tree -> Tree -> result Q.

Lemma row_distances_eq (g : globals) (tree_list : list Tree)
  (dist_type : string) (tree_ref : Tree) (distances : list cell) :
  trees_bound g tree_list ->
  row_distances wrf g tree_list dist_type tree_ref distances
  = (cells <- mapM (fun tree_i =>
                      d <- pair_distance wrf dist_type tree_ref tree_i ;;
                      Return (CNum d)) tree_list ;;
     Return (distances ++ cells)).
Proof.
  intros [texts [Hg Hlen]]. unfold row_distances.
  rewrite <- for_each_mapM.
  apply (for_each_seq tree_list _ _ 0%nat).
  intros i tree_i acc Hi. cbn [Nat.add].
  unfold load_global. rewrite Hg. cbn [bind py_index].
  assert (Hlt : (i < List.length texts)%nat).
  { apply Nat.lt_le_trans with (List.length tree_list); [|exact Hlen].
    apply nth_error_Some. congruence. }
  rewrite nth_error_map.
  destruct (nth_error texts i) as [text|] eqn:Et;
    [|apply nth_error_None in Et; lia].
  cbn. rewrite Hi. unfold pair_distance.
  destruct (String.eqb dist_type "rf"); cbn.
  - destruct (wrf tree_ref tree_i); reflexivity.
  - destruct (get_bsd tree_ref tree_i); reflexivity.
Qed.

Lemma header_eq (d : tree_dict_t) (acc : list cell) :
  distinct_keys d ->
  for_each (map fst d)
    (fun header tree => v <- dict_get d tree ;; Return (header ++ [CStr v]))
    acc
  = Return (acc ++ map (fun kv => CStr (snd kv)) d).
Proof.
  intro Hnd.
  rewrite (for_each_ext _ _
             (fun header tree =>
                y <- (v <- dict_get d tree ;; Return (CStr v)) ;;
                Return (header ++ [y])))
    by (intros s x _; destruct (dict_get d x); reflexivity).
  rewrite for_each_mapM.
  assert (H : forall l, incl l d ->
            mapM (fun tree => v <- dict_get d tree ;; Return (CStr v))
                 (map fst l)
            = Return (map (fun kv => CStr (snd kv)) l)).
  { induction l as [|[k v] l IH]; intro Hl; simpl; [reflexivity|].
    rewrite (dict_get_in d k v Hnd) by (apply Hl; left; reflexivity).
    cbn. rewrite IH; [reflexivity|].
    intros x Hx. apply Hl. right. exact Hx. }
  rewrite (H d (incl_refl d)). reflexivity.
Qed.


Lemma make_distance_matrix_eq (g : globals) (tree_dict : tree_dict_t)
  (tree_list : list Tree) (dist_type : string) :
  trees_bound g tree_list ->
  distinct_keys tree_dict ->
  make_distance_matrix wrf g tree_dict tree_list dist_type
  = (rows <- mapM (matrix_row wrf tree_dict tree_list dist_type) tree_list ;;
     Return (if String.eqb dist_type "rf"
             then "rf_matrix.csv" else "bsd_matrix.csv",
             (CStr "," :: map (fun kv => CStr (snd kv)) tree_dict) :: rows)).
Proof.
  intros Hb Hnd. unfold make_distance_matrix. cbv zeta.
  rewrite (header_eq tree_dict [CStr ","] Hnd). cbn [bind app].
  rewrite (for_each_ext _ _
             (fun rows tree_ref =>
                y <- matrix_row wrf tree_dict tree_list dist_type tree_ref ;;
                Return (rows ++ [y]))).
  - rewrite for_each_mapM.
    destruct (mapM _ tree_list); reflexivity.
  - intros rows tree_ref _. unfold matrix_row.
    destruct (dict_get tree_dict tree_ref) as [v|e]; cbn [bind]; [|reflexivity].
    rewrite (row_distances_eq g tree_list dist_type tree_ref [CStr v] Hb).
    destruct (mapM _ tree_list); reflexivity.
Qed.

End MatrixMore.


Lemma Forall2_right {A B : Type} (P : A -> B -> Prop) (Q : B -> Prop)
  (xs : list A) (ys : list B) :
  Forall2 P xs ys -> (forall x y, P x y -> Q y) -> Forall Q ys.
Proof.
  intros H HPQ. induction H as [|x y xs ys Hxy _ IH]; constructor;
    [exact (HPQ x y Hxy) | exact IH].
Qed.

Lemma combine_keys_distinct (keys : list Tree) (values : list string) :
  NoDup (map tree_id keys) -> distinct_keys (combine keys values).
Proof.
  unfold distinct_keys. revert values.
  induction keys as [|k keys IH]; intros values Hnd; simpl; [constructor|].
  destruct values as [|v values]; simpl; [constructor|].
  inversion Hnd as [|x l Hnotin Hnd' Heq]; subst.
  constructor; [|apply IH; exact Hnd'].
  intro Hin. apply Hnotin.
  apply in_map_iff in Hin. destruct Hin as [[k' v'] [Hid Hkv]].
  apply in_combine_l in Hkv. simpl in Hid. rewrite <- Hid.
  apply in_map. exact Hkv.
Qed.


Section MatrixTheorems.

Variable wrf : Tree -> Tree -> result Q.







(** X19: a table that is returned is square: below the header there is
    one row per tree, and every such row has one label and one distance
    per tree. *)
Theorem make_distance_matrix_shape (g : globals) (tree_dict : tree_dict_t)
  (tree_list : list Tree) (dist_type : string) (file : csv_file) :
  trees_bound g tree_list ->
  distinct_keys tree_dict ->
  make_distance_matrix wrf g tree_dict tree_list dist_type = Return file ->
  exists header data,
    snd file = header :: data
    /\ List.length header = S (List.length tree_dict)
    /\ List.length data = List.length tree_list
    /\ Forall (fun row => List.length row = S (List.length tree_list)) data.
Proof.
  intros Hb Hd. rewrite (make_distance_matrix_eq wrf g _ _ _ Hb Hd).
  destruct (mapM _ tree_list) as [rows|e] eqn:E; cbn [bind]; [|discriminate].
  intro H. apply Return_inj in H. subst file. cbn [snd].
  exists (CStr "," :: map (fun kv => CStr (snd kv)) tree_dict), rows.
  split; [reflexivity|]. split; [simpl; now rewrite length_map|].
  split; [exact (mapM_length _ _ _ E)|].
  apply mapM_Forall2 in E.
  apply (Forall2_right _ _ _ _ E). intros t row Hrow.
  unfold matrix_row in Hrow.
  destruct (dict_get tree_dict t); cbn [bind] in Hrow; [|discriminate].
  destruct (mapM _ tree_list) as [cells|] eqn:Ec; cbn [bind] in Hrow;
    [|discriminate].
  apply Return_inj in Hrow. subst row. simpl.
  now rewrite (mapM_length _ _ _ Ec).
Qed.







End MatrixTheorems.

Ltac distinct_ids :=
  unfold distinct_keys; simpl;
  repeat (constructor; [simpl; intuition discriminate|]); constructor.




Lemma make_distance_matrix_shape_witness :
  exists header data,
    snd ("rf_matrix.csv",
         [ [CStr ","; CStr "tree_a"; CStr "tree_b"];
           [CStr "tree_a"; CNum 1; CNum 1];
           [CStr "tree_b"; CNum 1; CNum 1] ]) = header :: data
    /\ List.length header = S (List.length MoreSamples.dict2)
    /\ List.length data = List.length MoreSamples.list2
    /\ Forall (fun row => List.length row = S (List.length MoreSamples.list2))
              data.
Proof.
  apply (make_distance_matrix_shape (fun _ _ => Return 1) MoreSamples.scope2
           MoreSamples.dict2 MoreSamples.list2 "rf").
  - eexists. split; [reflexivity | simpl; lia].
  - distinct_ids.
  - reflexivity.
Defined.





(** ** The driver: dictionary, parsing, and the two matrices *)

Lemma dict_set_ids (d : tree_dict_t) (k : Tree) (v : string) :
  map (fun kv => tree_id (fst kv)) (dict_set d k v)
  = if existsb (Pos.eqb (tree_id k)) (map (fun kv => tree_id (fst kv)) d)
    then map (fun kv => tree_id (fst kv)) d
    else map (fun kv => tree_id (fst kv)) d ++ [tree_id k].
Proof.
  induction d as [|[k' v'] d IH]; simpl; [reflexivity|].
  rewrite (Pos.eqb_sym (tree_id k) (tree_id k')).
  destruct (Pos.eqb (tree_id k') (tree_id k)) eqn:E; simpl; [reflexivity|].
  rewrite IH. destruct (existsb _ _); reflexivity.
Qed.

Lemma dict_set_distinct (d : tree_dict_t) (k : Tree) (v : string) :
  distinct_keys d -> distinct_keys (dict_set d k v).
Proof.
  unfold distinct_keys. intro Hnd. rewrite dict_set_ids.
  destruct (existsb _ _) eqn:E; [exact Hnd|].
  apply NoDup_app; repeat split.
  - exact Hnd.
  - constructor; [intros []|constructor].
  - intros a Ha [<-|[]].
    assert (Ht : existsb (Pos.eqb (tree_id k))
                   (map (fun kv => tree_id (fst kv)) d) = true).
    { apply existsb_exists. exists (tree_id k).
      split; [exact Ha | apply Pos.eqb_refl]. }
    congruence.
Qed.

Lemma dict_set_new (d : tree_dict_t) (k : Tree) (v : string) :
  ~ In (tree_id k) (map (fun kv => tree_id (fst kv)) d) ->
  dict_set d k v = d ++ [(k, v)].
Proof.
  induction d as [|[k' v'] d IH]; intro Hnot; simpl in *; [reflexivity|].
  destruct (Pos.eqb_spec (tree_id k') (tree_id k)) as [E|_].
  - exfalso. apply Hnot. left. exact E.
  - rewrite IH; [reflexivity|]. intro H. apply Hnot. right. exact H.
Qed.

Lemma dict_zip_combine (keys : list Tree) (values : list string) :
  NoDup (map tree_id keys) -> dict_zip keys values = combine keys values.
Proof.
  intro Hnd. apply (combine_keys_distinct keys values) in Hnd.
  unfold dict_zip, distinct_keys in *.
  assert (H : forall l acc,
            NoDup (map (fun kv => tree_id (fst kv)) (acc ++ l)) ->
            fold_left (fun d kv => dict_set d (fst kv) (snd kv)) l acc
            = acc ++ l).
  { induction l as [|[k v] l IH]; intros acc Hacc; simpl.
    - now rewrite app_nil_r.
    - rewrite dict_set_new.
      + rewrite IH; rewrite <- app_assoc; [reflexivity | exact Hacc].
      + rewrite map_app in Hacc. simpl in Hacc.
        apply NoDup_remove_2 in Hacc. intro Hin. apply Hacc.
        apply in_or_app. left. exact Hin. }
  apply (H (combine keys values) []). exact Hnd.
Qed.

(** X24: the dictionary [dict(zip(keys, values))] never holds the same
    Tree object under two keys, whatever the lists are. *)
Theorem dict_zip_distinct_keys (keys : list Tree) (values : list string) :
  distinct_keys (dict_zip keys values).
Proof.
  unfold dict_zip.
  assert (H : forall l acc,
            distinct_keys acc ->
            distinct_keys
              (fold_left (fun d kv => dict_set d (fst kv) (snd kv)) l acc)).
  { induction l as [|kv l IH]; intros acc Hacc; simpl; [exact Hacc|].
    apply IH, dict_set_distinct, Hacc. }
  apply H. constructor.
Qed.

(** X25: looking up the [i]-th tree in [dict(zip(keys, values))] gives the
    [i]-th label when the trees are distinct objects; a tree that is not
    among the keys raises [KeyError]. *)
Theorem dict_zip_lookup (keys : list Tree) (values : list string) :
  NoDup (map tree_id keys) ->
  (forall i k v,
     nth_error keys i = Some k -> nth_error values i = Some v ->
     dict_get (dict_zip keys values) k = Return v)
  /\ (forall k,
        ~ In (tree_id k) (map tree_id keys) ->
        dict_get (dict_zip keys values) k = Raise KeyError).
Proof.
  intro Hnd. rewrite (dict_zip_combine keys values Hnd). split.
  - intros i k v Hk Hv.
    apply dict_get_in; [apply combine_keys_distinct; exact Hnd|].
    revert i values Hk Hv. clear Hnd.
    induction keys as [|k0 keys IH]; intros [|i] [|v0 values] Hk Hv;
      simpl in *; try discriminate.
    + injection Hk as ->. injection Hv as ->. left. reflexivity.
    + right. apply (IH i values); assumption.
  - intros k Hnot. apply dict_get_missing. intro Hin. apply Hnot.
    apply in_map_iff in Hin. destruct Hin as [[k' v'] [Hid Hkv]].
    apply in_combine_l in Hkv. simpl in Hid. rewrite <- Hid.
    apply in_map. exact Hkv.
Qed.

Lemma dict_zip_lookup_witness :
  dict_get (dict_zip MoreSamples.list2 ["tree_a"; "tree_b"]) Samples.treeA'
  = Return "tree_b".
Proof.
  refine (proj1 (dict_zip_lookup MoreSamples.list2 ["tree_a"; "tree_b"] _)
                1%nat Samples.treeA' "tree_b" eq_refl eq_refl).
  simpl. repeat (constructor; [simpl; intuition discriminate|]). constructor.
Defined.

Section DriverTheorems.

Variable wrf : Tree -> Tree -> result Q.
Variable Tree_get : string -> result (list Node * list Bipartition).

Lemma parse_trees_acc (texts pre : list string) (acc : list Tree) :
  for_each (seq (List.length pre) (List.length texts))
    (fun dd_trees i =>
       match nth_error (pre ++ texts) i with
       | None => Raise IndexError
       | Some text =>
           parsed <- Tree_get text ;;
           Return (dd_trees
                   ++ [mkTree (Pos.of_succ_nat i) (fst parsed) (snd parsed)])
       end)
    acc
  = (parsed <- mapM (fun it =>
                       parsed <- Tree_get (snd it) ;;
                       Return (mkTree (Pos.of_succ_nat (fst it))
                                      (fst parsed) (snd parsed)))
                    (combine (seq (List.length pre) (List.length texts)) texts) ;;
     Return (acc ++ parsed)).
Proof.
  revert pre acc; induction texts as [|text texts IH]; intros pre acc.
  - simpl. now rewrite app_nil_r.
  - cbn [List.length seq for_each combine mapM fst snd].
    rewrite nth_error_app2 by lia. rewrite Nat.sub_diag. cbn [nth_error].
    destruct (Tree_get text) as [parsed|e]; cbn [bind]; [|reflexivity].
    specialize (IH (pre ++ [text])).
    rewrite length_app in IH. cbn [List.length] in IH.
    rewrite Nat.add_1_r, <- app_assoc in IH. cbn [app] in IH.
    rewrite IH. destruct (mapM _ _); cbn [bind]; [|reflexivity].
    now rewrite <- app_assoc.
Qed.

Lemma parse_trees_eq (texts : list string) :
  parse_trees Tree_get texts
  = mapM (fun it =>
            parsed <- Tree_get (snd it) ;;
            Return (mkTree (Pos.of_succ_nat (fst it)) (fst parsed) (snd parsed)))
         (combine (seq 0 (List.length texts)) texts).
Proof.
  unfold parse_trees.
  pose proof (parse_trees_acc texts [] []) as H.
  cbn [List.length app] in H. rewrite H.
  destruct (mapM _ _); reflexivity.
Qed.

Lemma parse_trees_ok (texts : list string) (dd_trees : list Tree) :
  parse_trees Tree_get texts = Return dd_trees ->
  List.length dd_trees = List.length texts
  /\ map tree_id dd_trees = map Pos.of_succ_nat (seq 0 (List.length texts))
  /\ Forall2 (fun text tree =>
                Tree_get text = Return (nodes tree, encode_bipartitions tree))
             texts dd_trees.
Proof.
  rewrite parse_trees_eq. generalize 0%nat as k. revert dd_trees.
  induction texts as [|text texts IH]; intros dd_trees k H;
    cbn [List.length seq combine mapM fst snd] in H.
  - apply Return_inj in H. subst. repeat split. constructor.
  - destruct (Tree_get text) as [[ns bs]|e] eqn:Et; cbn [bind] in H;
      [|discriminate].
    destruct (mapM _ _) as [dd|e] eqn:Em; cbn [bind] in H; [|discriminate].
    apply Return_inj in H. subst dd_trees.
    destruct (IH dd (S k) Em) as (Hl & Hids & Hall).
    cbn [List.length map seq tree_id fst snd]. repeat split.
    + now rewrite Hl.
    + now rewrite Hids.
    + constructor; [exact Et | exact Hall].
Qed.

Lemma of_succ_nat_seq_NoDup (k n : nat) :
  NoDup (map Pos.of_succ_nat (seq k n)).
Proof.
  pose proof (seq_NoDup n k) as H.
  induction H as [|i l Hnotin _ IH]; simpl; constructor; [|exact IH].
  intro Hin. apply in_map_iff in Hin. destruct Hin as [j [Hj Hjl]].
  apply SuccNat2Pos.inj in Hj. subst j. exact (Hnotin Hjl).
Qed.

Lemma parse_trees_distinct (texts : list string) (dd_trees : list Tree) :
  parse_trees Tree_get texts = Return dd_trees ->
  List.length dd_trees = List.length texts
  /\ NoDup (map tree_id dd_trees)
  /\ Forall2 (fun text tree =>
                Tree_get text = Return (nodes tree, encode_bipartitions tree))
             texts dd_trees.
Proof.
  intro H. destruct (parse_trees_ok texts dd_trees H) as (Hl & Hids & Hall).
  repeat split; [exact Hl | | exact Hall].
  rewrite Hids. apply of_succ_nat_seq_NoDup.
Qed.

(** X26: if the loop that parses the texts returns, it returns one Tree
    per text, in order, all distinct objects, each holding what DendroPy
    parsed from its text. *)
Theorem parse_trees_returns (texts : list string) (dd_trees : list Tree) :
  parse_trees Tree_get texts = Return dd_trees ->
  List.length dd_trees = List.length texts
  /\ NoDup (map tree_id dd_trees)
  /\ Forall2 (fun text tree =>
                Tree_get text = Return (nodes tree, encode_bipartitions tree))
             texts dd_trees.
Proof. apply parse_trees_distinct. Qed.

End DriverTheorems.

Lemma parse_trees_returns_witness :
  List.length [mkTree 1 (Samples.nodesA 1) []; mkTree 2 (Samples.nodesA 1) []]
  = List.length ["(A,B);"; "(B,A);"]
  /\ NoDup (map tree_id
              [mkTree 1 (Samples.nodesA 1) []; mkTree 2 (Samples.nodesA 1) []])
  /\ Forall2 (fun text tree =>
                (fun _ : string => Return (Samples.nodesA 1, [])) text
                = Return (nodes tree, encode_bipartitions tree))
             ["(A,B);"; "(B,A);"]
             [mkTree 1 (Samples.nodesA 1) []; mkTree 2 (Samples.nodesA 1) []].
Proof.
  apply (parse_trees_returns (fun _ => Return (Samples.nodesA 1, []))).
  reflexivity.
Defined.

Section MainTheorems.

Variable wrf : Tree -> Tree -> result Q.
Variable Tree_get : string -> result (list Node * list Bipartition).






End MainTheorems.


